(** * rotating: a file that rotates itself by size and by time slot

    A shallow embedding of [clock.go] and [rotating.go] of
    github.com/lestrrat-go/rotating, and the properties of the rotation
    decision, the writer swap and the retention purge.

    Conventions.  Go's [int], [int64] and [time.Duration] are modelled by
    [Z] (no run of the writer comes near the 64-bit bounds, so wrap-around
    is left out).  Mutable objects reached through pointers ([*File], the
    writer handles, the timer) are threaded explicitly: a method [m]
    of [*File] becomes a function of the [File] record and the
    [World] that returns both again. *)

From Stdlib Require Import ZArith String Ascii List Bool Lia.
From Stdlib.Strings Require Import Byte.
From stdpp Require Import gmap strings list sorting pretty.

Open Scope string_scope.
Open Scope Z_scope.

(** ** Package time, as far as clock.go uses it *)

Module GoTime.

(** [time.Duration]: a count of nanoseconds. *)
Abbreviation Duration := Z (only parsing).

Definition Nanosecond : Z := 1.
Definition Second : Z := 1000000000 * Nanosecond.
Definition Minute : Z := 60 * Second.
Definition Hour : Z := 60 * Minute.

(** Seconds between 0001-01-01T00:00:00Z (Go's zero time) and the Unix
    epoch: [unixToInternal] of package time. *)
Definition unixToInternal : Z := (1969 * 365 + 1969 / 4 - 1969 / 100 + 1969 / 400) * 86400.

(** Ends of the period of validity that [Location.lookup] returns for a zone
    without transitions ([alpha], [omega] of package time). *)
Definition alpha : Z := - 2 ^ 63.
Definition omega : Z := 2 ^ 63 - 1.

(** [*time.Location].  [time.UTC] is a distinguished pointer, which
    [truncate] tests with [==]; every other location is given by its
    [lookup]: from a Unix time in seconds to the offset (seconds east of
    UTC) in use at that time and the bounds [start <= .. < end] of the
    period in which that offset applies. *)
Inductive Location :=
| UTC
| Zone (lookup : Z -> Z * Z * Z).

Definition lookup (l : Location) (unix : Z) : Z * Z * Z :=
  match l with
  | UTC => (0, alpha, omega)
  | Zone f => f unix
  end.

(** [time.FixedZone(name, offset)]: one offset, for ever. *)
Definition FixedZone (offset : Z) : Location :=
  Zone (fun _ => (offset, alpha, omega)).

(** [time.Time]: an instant, in nanoseconds since the zero time, and the
    location it is presented in. *)
Record Time := mkTime { abs : Z; loc : Location }.

(** [time.Time{}]: its [Location()] is UTC. *)
Definition zeroTime : Time := mkTime 0 UTC.

Definition unixSec (t : Time) : Z := abs t / Second - unixToInternal.

Definition offsetOf (t : Time) : Z := fst (fst (lookup (loc t) (unixSec t))).

(** The wall-clock reading of [t] in its location, as nanoseconds since
    0001-01-01 00:00:00 of that wall clock.  [t.Year()], [t.Month()],
    [t.Day()], [t.Hour()], [t.Minute()], [t.Second()] and [t.Nanosecond()]
    are the calendar decomposition of this number, and [time.Date] starts by
    recomposing it; the decomposition is a bijection on normalised fields,
    so the model carries the number itself. *)
Definition civil (t : Time) : Z := abs t + offsetOf t * Second.

(** [time.Date(y, m, d, h, mi, s, ns, loc)] on the fields of the civil
    reading [c] (Go 1.16, the version of go.mod): guess the offset by
    looking [c] up as if it were UTC, and look again at the edge of the
    period when the guess falls outside it. *)
Definition Date (c : Z) (l : Location) : Time :=
  let unix := c / Second - unixToInternal in
  let nsec := c mod Second in
  let '(offset, start, end_) := lookup l unix in
  let unix' :=
    if offset =? 0 then unix
    else
      let utc := unix - offset in
      let offset' :=
        if utc <? start then fst (fst (lookup l (start - 1)))
        else if utc >=? end_ then fst (fst (lookup l end_))
        else offset in
      unix - offset' in
  mkTime ((unix' + unixToInternal) * Second + nsec) l.

(** [t.Truncate(d)]: round the instant down to a multiple of [d] since the
    zero time; [d <= 0] leaves [t] as it is. *)
Definition Truncate (t : Time) (d : Duration) : Time :=
  if d <=? 0 then t else mkTime (abs t - abs t mod d) (loc t).

Definition Equal (t u : Time) : bool := abs t =? abs u.
Definition After (t u : Time) : bool := abs u <? abs t.
Definition Add (t : Time) (d : Duration) : Time := mkTime (abs t + d) (loc t).

(** clock.go, [truncate]. *)
Definition truncate (t : Time) (interval : Duration) : Time :=
  match loc t with
  | UTC => Truncate t interval
  | Zone _ =>
      let utc := Date (civil t) UTC in
      let utc := Truncate utc interval in
      Date (civil utc) (loc t)
  end.

(** [r] is the greatest multiple of [i] that does not exceed [x]. *)
Definition greatest_multiple_le (i x r : Z) : Prop :=
  (i | r) /\ r <= x /\ forall m, (i | m) -> m <= x -> m <= r.

(** A location whose offset never changes: UTC or a fixed zone. *)
Definition fixed_offset (l : Location) : Prop :=
  l = UTC \/ exists off, l = FixedZone off.

(** [time.Date] finds an instant of [l] that reads [c]: the location has
    the wall-clock reading [c]. *)
Definition resolves (l : Location) (c : Z) : Prop := civil (Date c l) = c.

(** A location with one transition: offset [a] before the Unix time [T],
    offset [b] from then on. *)
Definition oneTransition (a b T : Z) : Location :=
  Zone (fun unix => if unix <? T then (a, alpha, T) else (b, T, omega)).

(** A zone with one transition, as America/New_York has on 2021-03-14: UTC-5
    before 07:00:00Z, UTC-4 from then on. *)
Definition springForward : Z := 1615705200.
Definition newYork2021 : Location :=
  Zone (fun unix =>
          if unix <? springForward then (-18000, alpha, springForward)
          else (-14400, springForward, omega)).

(** 2021-03-14 03:10:00 -0400, that is 07:10:00Z. *)
Definition afterSpringForward : Time :=
  mkTime ((springForward + 600 + unixToInternal) * Second) newYork2021.

(** 2021-03-14 08:10:00 -0400, five hours later. *)
Definition morningAfter : Time :=
  mkTime ((springForward + 5 * 3600 + 600 + unixToInternal) * Second) newYork2021.

End GoTime.


(** ** The operating system and the libraries the writer calls *)

Module Sys.
Import GoTime.

Inductive errno := ENOENT | EEXIST | EACCES | ENOSPC | EINVAL.

(** Go [error] values.  [nil] is [None] of [option error]. *)
Inductive error :=
| PathError (op path : string) (e : errno)   (** [*os.PathError], [*os.LinkError] *)
| ErrClosed                                  (** [os.ErrClosed]: use of a closed file *)
| ErrBadPattern                              (** [filepath.ErrBadPattern] *)
| Errorf (msg : string) (arg : error)        (** [errors.Errorf], [arg] rendered into the text *)
| Wrapped (cause : error) (msg : string).    (** what [errors.Wrap] builds *)

(** [errors.Wrap] and [errors.Wrapf] of pkg/errors: wrapping [nil] gives
    [nil]. *)
Definition Wrap (err : option error) (msg : string) : option error :=
  match err with
  | None => None
  | Some e => Some (Wrapped e msg)
  end.

(** [os.IsNotExist]: looks through the os error types only. *)
Definition IsNotExist (err : error) : bool :=
  match err with
  | PathError _ _ ENOENT => true
  | _ => false
  end.

Inductive Mode := Regular | Directory | Symlink.

(** [os.FileInfo], the parts the writer reads. *)
Record FileInfo := mkFileInfo { Size : Z; ModTime : Time; FileMode : Mode }.

(** [bufferedWriter]: a [bufio.Writer] ([n] bytes waiting in its buffer,
    [err] its sticky error) over the [*os.File] opened on [path]. *)
Record Handle := mkHandle {
  h_path : string;
  h_n : Z;
  h_err : option error;
  h_closed : bool
}.

Inductive Syscall :=
| SysStat | SysLstat | SysReadlink | SysMkdirAll | SysOpen | SysOpenExcl
| SysSymlink | SysRename.

(** The world outside the [File] value.
    - [w_wall] is what [time.Now()] reads, in the local zone; [w_fake] is
      the state of a clock object supplied by the caller (the [fakeClock]
      of the tests); [w_mono] is the runtime clock that drives timers.
    - [w_files] holds the directory entries by path and [w_links] what each
      symbolic link points to.
    - [w_fault] makes a system call on a path fail with an errno
      (permissions, a full disk, ...); it belongs to the world, which does
      not change between the attempts of one retry loop.
    - [w_handles] is the heap of writer handles; a handle is named by its
      index, so that two references to one handle see the same state.
    - [w_pending] lists the deletion goroutines that were started and have
      not run yet. *)
Record World := mkWorld {
  w_wall : Time;
  w_fake : Time;
  w_mono : Z;
  w_files : gmap string FileInfo;
  w_links : gmap string string;
  w_fault : Syscall -> string -> option errno;
  w_handles : list Handle;
  w_pending : list (list string)
}.

Definition set_files (w : World) (fs : gmap string FileInfo) : World :=
  mkWorld (w_wall w) (w_fake w) (w_mono w) fs (w_links w) (w_fault w)
          (w_handles w) (w_pending w).
Definition set_links (w : World) (ls : gmap string string) : World :=
  mkWorld (w_wall w) (w_fake w) (w_mono w) (w_files w) ls (w_fault w)
          (w_handles w) (w_pending w).
Definition set_handles (w : World) (hs : list Handle) : World :=
  mkWorld (w_wall w) (w_fake w) (w_mono w) (w_files w) (w_links w) (w_fault w)
          hs (w_pending w).
Definition set_pending (w : World) (ps : list (list string)) : World :=
  mkWorld (w_wall w) (w_fake w) (w_mono w) (w_files w) (w_links w) (w_fault w)
          (w_handles w) ps.

(** Results of calls that return [(value, error)]. *)
Definition result (A : Type) : Type := A + error.

(** [os.Stat] and [os.Lstat].  The paths the writer stats are its own log
    files and their directories, so following a link is not modelled: both
    read the directory entry. *)
Definition os_Lstat (path : string) (w : World) : result FileInfo :=
  match w_fault w SysLstat path with
  | Some e => inr (PathError "lstat" path e)
  | None =>
      match w_files w !! path with
      | Some fi => inl fi
      | None => inr (PathError "lstat" path ENOENT)
      end
  end.

Definition os_Stat (path : string) (w : World) : result FileInfo :=
  match w_fault w SysStat path with
  | Some e => inr (PathError "stat" path e)
  | None =>
      match w_files w !! path with
      | Some fi => inl fi
      | None => inr (PathError "stat" path ENOENT)
      end
  end.

Definition os_Readlink (path : string) (w : World) : result string :=
  match w_fault w SysReadlink path with
  | Some e => inr (PathError "readlink" path e)
  | None =>
      match w_links w !! path with
      | Some dst => inl dst
      | None =>
          inr (PathError "readlink" path
                 (if decide (is_Some (w_files w !! path)) then EINVAL else ENOENT))
      end
  end.

Definition os_MkdirAll (path : string) (w : World) : option error * World :=
  match w_fault w SysMkdirAll path with
  | Some e => (Some (PathError "mkdir" path e), w)
  | None =>
      match w_files w !! path with
      | Some _ => (None, w)
      | None => (None, set_files w (<[path := mkFileInfo 0 (w_wall w) Directory]> (w_files w)))
      end
  end.

(** Allocation of a fresh [bufferedWriter] over a file just opened. *)
Definition newHandle (path : string) (w : World) : nat * World :=
  (length (w_handles w),
   set_handles w (w_handles w ++ [mkHandle path 0 None false])).

(** [os.OpenFile(name, O_CREATE|O_APPEND|O_WRONLY, 0644)]: the file is
    created empty when it is not there and is left as it is when it is. *)
Definition os_OpenAppend (path : string) (w : World) : result unit * World :=
  match w_fault w SysOpen path with
  | Some e => (inr (PathError "open" path e), w)
  | None =>
      match w_files w !! path with
      | Some _ => (inl tt, w)
      | None => (inl tt, set_files w (<[path := mkFileInfo 0 (w_wall w) Regular]> (w_files w)))
      end
  end.

(** [os.OpenFile(name, O_CREATE|O_EXCL, 0644)]. *)
Definition os_OpenExcl (path : string) (w : World) : option error * World :=
  match w_fault w SysOpenExcl path with
  | Some e => (Some (PathError "open" path e), w)
  | None =>
      match w_files w !! path with
      | Some _ => (Some (PathError "open" path EEXIST), w)
      | None => (None, set_files w (<[path := mkFileInfo 0 (w_wall w) Regular]> (w_files w)))
      end
  end.

(** [os.Remove] when the removal goes through.  Both callers drop the
    error it returns; a removal that fails is not modelled, and what is
    proved of a removed path is proved of a removal that went through. *)
Definition os_Remove (path : string) (w : World) : World :=
  set_links (set_files w (delete path (w_files w))) (delete path (w_links w)).

Definition os_Symlink (oldname newname : string) (w : World) : option error * World :=
  match w_fault w SysSymlink newname with
  | Some e => (Some (PathError "symlink" newname e), w)
  | None =>
      match w_files w !! newname with
      | Some _ => (Some (PathError "symlink" newname EEXIST), w)
      | None =>
          (None,
           set_links
             (set_files w (<[newname := mkFileInfo 0 (w_wall w) Symlink]> (w_files w)))
             (<[newname := oldname]> (w_links w)))
      end
  end.

Definition os_Rename (oldpath newpath : string) (w : World) : option error * World :=
  match w_fault w SysRename newpath with
  | Some e => (Some (PathError "rename" newpath e), w)
  | None =>
      match w_files w !! oldpath with
      | None => (Some (PathError "rename" oldpath ENOENT), w)
      | Some fi =>
          let fs := <[newpath := fi]> (delete oldpath (w_files w)) in
          let ls :=
            match w_links w !! oldpath with
            | Some dst => <[newpath := dst]> (delete oldpath (w_links w))
            | None => delete newpath (w_links w)
            end in
          (None, set_links (set_files w fs) ls)
      end
  end.

(** *** Writer handles: [bufio.Writer] over [*os.File] *)

(** [bufio.NewWriter]'s buffer size. *)
Definition bufSize : Z := 4096.

Definition put_handle (h : nat) (hd : Handle) (w : World) : World :=
  set_handles w (<[h := hd]> (w_handles w)).

(** [Write] of [*os.File] of [n] bytes in append mode: the entry under the
    file's path grows, if it is still there. *)
Definition file_Write (hd : Handle) (n : Z) (w : World) : (Z * option error) * World :=
  if h_closed hd then ((0, Some ErrClosed), w)
  else
    ((n, None),
     set_files w
       (alter (fun fi => mkFileInfo (Size fi + n) (w_wall w) (FileMode fi))
              (h_path hd) (w_files w))).

(** [Flush] of [*bufio.Writer]. *)
Definition bw_Flush (h : nat) (w : World) : option error * World :=
  match w_handles w !! h with
  | None => (None, w)
  | Some hd =>
      match h_err hd with
      | Some e => (Some e, w)
      | None =>
          if h_n hd =? 0 then (None, w)
          else
            let '((n, err), w) := file_Write hd (h_n hd) w in
            match err with
            | Some e =>
                (Some e, put_handle h (mkHandle (h_path hd) (h_n hd - n) (Some e) (h_closed hd)) w)
            | None =>
                (None, put_handle h (mkHandle (h_path hd) 0 None (h_closed hd)) w)
            end
      end
  end.

(** [Sync] of [*bufferedWriter], that is of its [*os.File]. *)
Definition bw_Sync (h : nat) (w : World) : option error :=
  match w_handles w !! h with
  | Some hd => if h_closed hd then Some ErrClosed else None
  | None => None
  end.

(** [Close] of [*bufferedWriter], that is of its [*os.File]. *)
Definition bw_Close (h : nat) (w : World) : option error * World :=
  match w_handles w !! h with
  | Some hd =>
      if h_closed hd then (Some ErrClosed, w)
      else (None, put_handle h (mkHandle (h_path hd) (h_n hd) (h_err hd) true) w)
  | None => (None, w)
  end.

(** Whether the file under a handle has been closed. *)
Definition isClosed (h : nat) (w : World) : bool :=
  match w_handles w !! h with
  | Some hd => h_closed hd
  | None => false
  end.

(** The handle is closed, with an empty buffer and no error recorded. *)
Definition finalized (h : nat) (w : World) : Prop :=
  exists path, w_handles w !! h = Some (mkHandle path 0 None true).

(** The loop of [Write] of [*bufio.Writer]: while the rest of [p] ([len]
    bytes) does not fit and no error is recorded, either write it through
    (empty buffer) or fill the buffer and flush.  A round with an empty
    buffer ends the loop and a round with a filled one empties it or
    records an error, so two rounds are all the loop can make. *)
Fixpoint bw_fill (fuel : nat) (h : nat) (len nn : Z) (w : World) : Z * Z * World :=
  match fuel with
  | O => (len, nn, w)
  | S fuel' =>
      match w_handles w !! h with
      | None => (len, nn, w)
      | Some hd =>
          if (len >? bufSize - h_n hd) && negb (bool_decide (is_Some (h_err hd))) then
            if h_n hd =? 0 then
              let '((n, err), w) := file_Write hd len w in
              let w := put_handle h (mkHandle (h_path hd) (h_n hd) err (h_closed hd)) w in
              bw_fill fuel' h (len - n) (nn + n) w
            else
              let n := bufSize - h_n hd in
              let w := put_handle h (mkHandle (h_path hd) (h_n hd + n) (h_err hd) (h_closed hd)) w in
              let w := snd (bw_Flush h w) in
              bw_fill fuel' h (len - n) (nn + n) w
          else (len, nn, w)
      end
  end.

(** [Write] of [*bufio.Writer]. *)
Definition bw_Write (h : nat) (p : list byte) (w : World) : (Z * option error) * World :=
  let '(len, nn, w) := bw_fill 2 h (Z.of_nat (length p)) 0 w in
  match w_handles w !! h with
  | None => ((nn, None), w)
  | Some hd =>
      match h_err hd with
      | Some e => ((nn, Some e), w)
      | None =>
          ((nn + len, None),
           put_handle h (mkHandle (h_path hd) (h_n hd + len) None (h_closed hd)) w)
      end
  end.

(** *** Libraries outside the repository

    The strftime engine, path manipulation and globbing are collaborators
    of the writer; the development is parametric in them. *)
Class Libs := {
  (** [strftime.New]: compile a pattern, or reject it; the compiled
      pattern's [FormatString] is the function returned. *)
  strftime_New : string -> result (Time -> string);
  filepath_Dir : string -> string;
  filepath_Rel : string -> string -> result string;
  (** [filepath.Glob] over the entries of the file system. *)
  filepath_Glob : string -> gmap string FileInfo -> result (list string)
}.

(** [strings.HasPrefix], [strings.HasSuffix], [strings.Contains]. *)
Definition HasPrefix (s pre : string) : bool := String.prefix pre s.

Definition HasSuffix (s suf : string) : bool :=
  let n := String.length s in
  let k := String.length suf in
  (k <=? n)%nat && String.eqb (String.substring (n - k) k s) suf.

Fixpoint Contains (s sub : string) : bool :=
  HasPrefix s sub ||
  match s with
  | EmptyString => false
  | String _ s' => Contains s' sub
  end.

End Sys.

(** ** rotating.go *)

Module Rotating.
Import GoTime Sys.

(** [Clock]: something with a [Now()].  The clock is an object outside the
    writer, so its reading is a function of the world. *)
Definition Clock : Type := World -> Time.

(** clock.go, [UTC()] and [Local()]. *)
Definition ClockUTC : Clock := fun w => mkTime (abs (w_wall w)) UTC.
Definition ClockLocal : Clock := fun w => w_wall w.

(** The [fakeClock] of rotating_test.go. *)
Definition fakeClock : Clock := fun w => w_fake w.

(** [backoff.Policy], by what the retry loop sees of it: the number of
    times [backoff.Continue] answers true for a controller started on a live
    context.  [backoff.Null()] lets the body run once. *)
Record Policy := mkPolicy { attempts : nat }.
Definition Null : Policy := mkPolicy 1.

(** [*time.Timer], by what [sizeExceeded] sees of it: stopped and drained,
    or armed for a reading of the runtime clock, from which on its channel
    holds a value until it is received. *)
Inductive Timer :=
| Stopped
| Armed (deadline : Z).

Definition NewTimer (d : Duration) (w : World) : Timer := Armed (w_mono w + d).

(** [Reset] of a timer whose channel is empty. *)
Definition Reset (t : Timer) (d : Duration) (w : World) : Timer := Armed (w_mono w + d).

(** The receive case of a [select] with a [default]. *)
Definition ready (t : Timer) (w : World) : bool :=
  match t with
  | Stopped => false
  | Armed deadline => deadline <=? w_mono w
  end.

(** [type File struct].  [file] is the [io.Writer] held: [nil] or a
    handle of the world.  [cancelled] stands for [ctx] and [cancel]: whether
    [cancel()] has been called.  [mu] has no counterpart in a sequential
    model and [lastCheck] is never read or written. *)
Record File := mkFile {
  backoff : Policy;
  baseTime : Time;
  cancelled : bool;
  checkInterval : Duration;
  clock : Clock;
  file : option nat;
  filename : string;
  generation : Z;
  globPattern : string;
  pattern : Time -> string;
  maxAge : Duration;
  maxInterval : Duration;
  maxFileSize : Z;
  nextCheck : Timer;
  rotationCount : Z;
  symlink : string
}.

Definition set_baseTime (f : File) (v : Time) : File :=
  mkFile (backoff f) v (cancelled f) (checkInterval f) (clock f) (file f)
         (filename f) (generation f) (globPattern f) (pattern f) (maxAge f)
         (maxInterval f) (maxFileSize f) (nextCheck f) (rotationCount f) (symlink f).
Definition set_cancelled (f : File) (v : bool) : File :=
  mkFile (backoff f) (baseTime f) v (checkInterval f) (clock f) (file f)
         (filename f) (generation f) (globPattern f) (pattern f) (maxAge f)
         (maxInterval f) (maxFileSize f) (nextCheck f) (rotationCount f) (symlink f).
Definition set_file (f : File) (v : option nat) : File :=
  mkFile (backoff f) (baseTime f) (cancelled f) (checkInterval f) (clock f) v
         (filename f) (generation f) (globPattern f) (pattern f) (maxAge f)
         (maxInterval f) (maxFileSize f) (nextCheck f) (rotationCount f) (symlink f).
Definition set_filename (f : File) (v : string) : File :=
  mkFile (backoff f) (baseTime f) (cancelled f) (checkInterval f) (clock f) (file f)
         v (generation f) (globPattern f) (pattern f) (maxAge f)
         (maxInterval f) (maxFileSize f) (nextCheck f) (rotationCount f) (symlink f).
Definition set_generation (f : File) (v : Z) : File :=
  mkFile (backoff f) (baseTime f) (cancelled f) (checkInterval f) (clock f) (file f)
         (filename f) v (globPattern f) (pattern f) (maxAge f)
         (maxInterval f) (maxFileSize f) (nextCheck f) (rotationCount f) (symlink f).
Definition set_nextCheck (f : File) (v : Timer) : File :=
  mkFile (backoff f) (baseTime f) (cancelled f) (checkInterval f) (clock f) (file f)
         (filename f) (generation f) (globPattern f) (pattern f) (maxAge f)
         (maxInterval f) (maxFileSize f) v (rotationCount f) (symlink f).

Definition defaultCheckInterval : Duration := 5 * Minute.

(** *** NewFile *)

(** The options of options.go. *)
Inductive Option :=
| WithClock (c : Clock)
| WithCheckInterval (v : Duration)
| WithMaxFileSize (v : Z)
| WithMaxInterval (v : Duration)
| WithSymlink (v : string)
| WithRotationCount (v : Z).

(** The locals that the option loop of [NewFile] assigns. *)
Record Settings := mkSettings {
  s_clock : Clock;
  s_checkInterval : Duration;
  s_maxInterval : Duration;
  s_maxFileSize : Z;
  s_symlink : string;
  s_rotationCount : Z
}.

Definition applyOption (s : Settings) (o : Option) : Settings :=
  match o with
  | WithClock c =>
      mkSettings c (s_checkInterval s) (s_maxInterval s) (s_maxFileSize s) (s_symlink s) (s_rotationCount s)
  | WithCheckInterval v =>
      mkSettings (s_clock s) v (s_maxInterval s) (s_maxFileSize s) (s_symlink s) (s_rotationCount s)
  | WithMaxInterval v =>
      mkSettings (s_clock s) (s_checkInterval s) v (s_maxFileSize s) (s_symlink s) (s_rotationCount s)
  | WithMaxFileSize v =>
      mkSettings (s_clock s) (s_checkInterval s) (s_maxInterval s) v (s_symlink s) (s_rotationCount s)
  | WithSymlink v =>
      mkSettings (s_clock s) (s_checkInterval s) (s_maxInterval s) (s_maxFileSize s) v (s_rotationCount s)
  | WithRotationCount v =>
      mkSettings (s_clock s) (s_checkInterval s) (s_maxInterval s) (s_maxFileSize s) (s_symlink s) v
  end.

(** [patternConversionRegexps]: the characters that may follow [%] in the
    first expression, a percent sign, a plus sign or a letter. *)
Definition isVerb (c : ascii) : bool :=
  let n := nat_of_ascii c in
  (n =? 37)%nat || (n =? 43)%nat
  || ((65 <=? n)%nat && (n <=? 90)%nat) || ((97 <=? n)%nat && (n <=? 122)%nat).

Definition isPercent (c : ascii) : bool := (nat_of_ascii c =? 37)%nat.
Definition isStar (c : ascii) : bool := (nat_of_ascii c =? 42)%nat.

(** [ReplaceAllString(s, "*")] for the first expression: each
    percent sign with a verb character after it becomes a star. *)
Fixpoint replaceVerbs (s : string) : string :=
  match s with
  | EmptyString => EmptyString
  | String c rest =>
      match rest with
      | String d rest' =>
          if isPercent c && isVerb d then String "*" (replaceVerbs rest')
          else String c (replaceVerbs rest)
      | EmptyString => String c EmptyString
      end
  end.

(** [ReplaceAllString(s, "*")] for the second expression: each run of
    stars becomes one star. *)
Fixpoint collapseStars (s : string) : string :=
  match s with
  | EmptyString => EmptyString
  | String c rest =>
      if isStar c then
        match rest with
        | String d _ => if isStar d then collapseStars rest else String c (collapseStars rest)
        | EmptyString => String c EmptyString
        end
      else String c (collapseStars rest)
  end.

(** How a call ends: it returns, or the goroutine panics. *)
Inductive outcome (A : Type) :=
| Returns (a : A)
| Panics.
Arguments Returns {A} a.
Arguments Panics {A}.

(** [strings.Compare(a, b) <= 0]: byte-wise lexicographic order. *)
Definition str_le (a b : string) : Prop := String.leb a b = true.

#[export] Instance str_le_dec : RelDecision str_le.
Proof. intros a b. unfold str_le. apply _. Defined.

Section WithLibs.
Context `{Libs}.

(** [NewFile].  The context handed in is live; the timer is created on the
    runtime clock of the world.  Nothing of the world is changed, so the
    world is not returned. *)
Definition NewFile (p : string) (options : list Option) (w : World) : result File :=
  let bo := Null in
  let s := fold_left applyOption options (mkSettings ClockLocal 0 Hour 0 "" 0) in
  match strftime_New p with
  | inr err => inr (Wrapped err "invalid strftime pattern")
  | inl pat =>
      let checkInterval :=
        if (s_maxFileSize s >? 0) && (s_checkInterval s <=? 0) then defaultCheckInterval
        else s_checkInterval s in
      let nextCheck :=
        if checkInterval >? 0 then NewTimer checkInterval w else Stopped in
      let globPattern := collapseStars (replaceVerbs p) in
      let globPattern :=
        if HasSuffix globPattern "*" then globPattern else (globPattern +:+ "*") in
      inl (mkFile bo zeroTime false checkInterval (s_clock s) None "" 0
                  globPattern pat 0 (s_maxInterval s) (s_maxFileSize s) nextCheck
                  (s_rotationCount s) (s_symlink s))
  end.

(** *** The two probes *)

(** [flushWriter] and [finalizeWriter] on a [*bufferedWriter]; the errors of
    [Flush], [Sync] and [Close] are dropped. *)
Definition flushWriter (h : nat) (w : World) : World :=
  let '(_, w) := bw_Flush h w in
  let _ := bw_Sync h w in
  w.

Definition finalizeWriter (h : nat) (w : World) : World :=
  let w := flushWriter h w in
  snd (bw_Close h w).

(** [sizeExceeded]. *)
Definition sizeExceeded (f : File) (w : World) : bool * File * World :=
  let checkSize := ready (nextCheck f) w in
  let f := if checkSize then set_nextCheck f (Reset (nextCheck f) (checkInterval f) w) else f in
  if negb checkSize then (false, f, w)
  else
    match file f with
    | None => (false, f, w)
    | Some h =>
        let w := flushWriter h w in
        match os_Stat (filename f) w with
        | inr err => (if IsNotExist err then true else false, f, w)
        | inl fi => ((maxFileSize f >=? 0) && (Size fi >=? maxFileSize f), f, w)
        end
    end.

(** [intervalExceeded]. *)
Definition intervalExceeded (f : File) (w : World) : bool :=
  negb (Equal (baseTime f) (truncate (clock f w) (maxInterval f))).

(** *** Creating the file and swapping the writer *)

(** [createFile].  The [*os.File] it returns and the [bufferedWriter] that
    [rotateFile] builds around it at once are one [Handle] of the model,
    allocated here with an empty buffer. *)
Definition createFile (filename : string) (w : World) : result nat * World :=
  let dirname := filepath_Dir filename in
  let '(mkErr, w) :=
    match os_Stat dirname w with
    | inr err => if IsNotExist err then os_MkdirAll dirname w else (None, w)
    | inl _ => (None, w)
    end in
  match mkErr with
  | Some err => (inr (Wrapped err ("failed to create directory " +:+ dirname)), w)
  | None =>
      match os_OpenAppend filename w with
      | (inr err, w) => (inr (Errorf ("failed to open file " +:+ filename) err), w)
      | (inl _, w) => let '(h, w) := newHandle filename w in (inl h, w)
      end
  end.

(** [makeSymlink], from the lock file on; the deferred cleanup is done by
    [makeSymlink] below on every way out. *)
Definition publishSymlink (f : File) (w : World) : option error * World :=
  let linkDst := filename f in
  let linkDir := filepath_Dir (symlink f) in
  let rel :=
    if Contains linkDst linkDir then
      match filepath_Rel linkDir linkDst with
      | inr err => inr (Wrapped err "failed to evaluate relative path")
      | inl tmp => inl tmp
      end
    else inl linkDst in
  match rel with
  | inr e => (Some e, w)
  | inl linkDst =>
      let '(mkErr, w) :=
        match os_Stat linkDir w with
        | inr err => if IsNotExist err then os_MkdirAll linkDir w else (None, w)
        | inl _ => (None, w)
        end in
      match mkErr with
      | Some err => (Some (Wrapped err ("failed to create directory " +:+ linkDir)), w)
      | None =>
          let linkFn := filename f +:+ "_symlink" in
          match os_Symlink linkDst linkFn w with
          | (Some err, w) => (Some (Wrapped err "failed to create symlink"), w)
          | (None, w) =>
              match os_Rename linkFn (symlink f) w with
              | (Some err, w) => (Some (Wrapped err "failed to rename new symlink"), w)
              | (None, w) => (None, w)
              end
          end
      end
  end.

Definition makeSymlink (f : File) (w : World) : option error * World :=
  if String.eqb (symlink f) "" then (None, w)
  else
    let lockFn := filename f +:+ "_lock" in
    match os_OpenExcl lockFn w with
    | (Some err, w) => (Some (Wrapped err "failed to open lockfile"), w)
    | (None, w) =>
        let '(err, w) := publishSymlink f w in
        (err, os_Remove lockFn w)
    end.

(** *** purgeOld *)

Definition isTemporary (path : string) : bool :=
  HasSuffix path "_lock" || HasSuffix path "_symlink".

(** The first loop: lstat every match once and cache. *)
Fixpoint statAll (matches : list string) (w : World) (stats : gmap string FileInfo)
  : gmap string FileInfo :=
  match matches with
  | [] => stats
  | path :: rest =>
      if isTemporary path then statAll rest w stats
      else
        match os_Lstat path w with
        | inr _ => statAll rest w stats
        | inl fi => statAll rest w (<[path := fi]> stats)
        end
  end.

(** The symlink block: the map without the link's target, and [protected]. *)
Definition protectTarget (f : File) (w : World) (stats : gmap string FileInfo)
  : gmap string FileInfo * bool :=
  if String.eqb (symlink f) "" then (stats, false)
  else
    match os_Readlink (symlink f) w with
    | inl dst => (delete dst stats, true)
    | inr _ => (stats, false)
    end.

(** The keys of the map, sorted by name.  The keys are distinct, so any
    sort by [strings.Compare] gives this list. *)
Definition sortedKeys (stats : gmap string FileInfo) : list string :=
  merge_sort str_le (map fst (map_to_list stats)).

(** The second loop: what goes to [toPurge] at once and what goes to
    [candidates], both in the order of [matches]. *)
Fixpoint classify (stats : gmap string FileInfo) (maxAge : Duration) (cutoff : Time)
         (matches : list string) : list string * list string :=
  match matches with
  | [] => ([], [])
  | path :: rest =>
      let '(toPurge, candidates) := classify stats maxAge cutoff rest in
      match stats !! path with
      | None => (toPurge, candidates)
      | Some fi =>
          if (maxAge >? 0) && After (ModTime fi) cutoff then (path :: toPurge, candidates)
          else
            match FileMode fi with
            | Symlink => (toPurge, candidates)
            | _ => (toPurge, path :: candidates)
            end
      end
  end.


(** [candidates] as [purgeOld] has it before the count rule. *)
Definition purgeCandidates (f : File) (w : World) (matches : list string) : list string :=
  let stats := statAll matches w ∅ in
  let '(stats, _) := protectTarget f w stats in
  snd (classify stats (maxAge f) (Add (clock f w) (-1 * maxAge f)) (sortedKeys stats)).

(** [toPurge] on the way into the count rule. *)
Definition purgeByAge (f : File) (w : World) (matches : list string) : list string :=
  let stats := statAll matches w ∅ in
  let '(stats, _) := protectTarget f w stats in
  fst (classify stats (maxAge f) (Add (clock f w) (-1 * maxAge f)) (sortedKeys stats)).

(** [toPurge] as it is handed to the deletion goroutine. *)
Definition selectPurge (f : File) (w : World) (matches : list string) : list string :=
  let stats := statAll matches w ∅ in
  let '(stats, protected) := protectTarget f w stats in
  let matches := sortedKeys stats in
  let maxAge := maxAge f in
  let cutoff := Add (clock f w) (-1 * maxAge) in
  let '(toPurge, candidates) := classify stats maxAge cutoff matches in
  let c := rotationCount f in
  if c >? 0 then
    let lc := Z.of_nat (length candidates) in
    let c := if protected then c - 1 else c in
    if lc >? c then toPurge ++ take (Z.to_nat (lc - c)) candidates
    else toPurge
  else toPurge.

(** [protected], and [c] as the count rule compares it with
    [len(candidates)]. *)
Definition purgeProtected (f : File) (w : World) : bool :=
  snd (protectTarget f w ∅).

Definition keepCount (f : File) (w : World) : Z :=
  if purgeProtected f w then rotationCount f - 1 else rotationCount f.

Definition purgeOld (f : File) (w : World) : option error * World :=
  match filepath_Glob (globPattern f) (w_files w) with
  | inr err => (Some (Wrapped err "failed to apply glob pattern"), w)
  | inl matches =>
      let toPurge := selectPurge f w matches in
      if (0 <? length toPurge)%nat then (None, set_pending w (w_pending w ++ [toPurge]))
      else (None, w)
  end.

(** The body of a deletion goroutine, and the world once every goroutine
    started so far has run. *)
Definition removeAll (files : list string) (w : World) : World :=
  fold_left (fun w file => os_Remove file w) files w.

Definition runPending (w : World) : World :=
  set_pending (fold_left (fun w files => removeAll files w) (w_pending w) w) [].

(** *** rotateFile *)

(** The statements that [rotateFile] runs between [f.mu.Lock()] and
    [f.mu.Unlock()] once [newF] is created, in the order of the source. *)
Definition swapSteps (newF : nat) (newFileName : string)
  : list (File * World -> File * World) :=
  [ (fun s => (fst s, match file (fst s) with
                      | Some old => finalizeWriter old (snd s)
                      | None => snd s
                      end));
    (fun s => (set_file (fst s) (Some newF), snd s));
    (fun s => (set_filename (fst s) newFileName, snd s)) ].

Definition runSteps (steps : list (File * World -> File * World)) (s : File * World)
  : File * World :=
  fold_left (fun s step => step s) steps s.

(** The states a run of the steps goes through, the first one included. *)
Fixpoint traceSteps (steps : list (File * World -> File * World)) (s : File * World)
  : list (File * World) :=
  match steps with
  | [] => [s]
  | step :: rest => s :: traceSteps rest (step s)
  end.

(** The loop of [rotateFile]; [n] is the number of times that
    [backoff.Continue] still answers true. *)
Fixpoint rotateLoop (n : nat) (newFileName : string) (lastError : option error)
         (f : File) (w : World) : option error * File * World :=
  match n with
  | O => (Wrap lastError ("failed to create file " +:+ newFileName), f, w)
  | S n' =>
      match createFile newFileName w with
      | (inr err, w) => rotateLoop n' newFileName (Some err) f w
      | (inl newF, w) =>
          let '(f, w) := runSteps (swapSteps newF newFileName) (f, w) in
          match makeSymlink f w with
          | (Some err, w) => (Some (Wrapped err "failed to create symlink"), f, w)
          | (None, w) =>
              let '(_, w) := purgeOld f w in
              (None, f, w)
          end
      end
  end.

(** [rotateFile].  A controller started on a cancelled context grants no
    attempt. *)
Definition rotateFile (f : File) (w : World) (newFileName : string)
  : option error * File * World :=
  rotateLoop (if cancelled f then O else attempts (backoff f)) newFileName None f w.

(** *** Write, getWriter and Close *)

(** [getWriter]: the writer returned ([nil] with an error), the error.
    The clock is read in one world for [intervalExceeded] and for the new
    [baseTime]: a call during which the clock does not move.  [getWriterAt]
    below lets it move. *)
Definition getWriter (f : File) (w : World) : option nat * option error * File * World :=
  let '(sizeExceeded, f, w) := sizeExceeded f w in
  let intervalExceeded := intervalExceeded f w in
  if sizeExceeded || intervalExceeded then
    let f := set_baseTime f (truncate (clock f w) (maxInterval f)) in
    let fn := pattern f (baseTime f) in
    let '(f, fn) :=
      if intervalExceeded then (set_generation f 0, fn)
      else if String.eqb fn (filename f) then
        let f := set_generation f (generation f + 1) in
        (f, fn +:+ "." +:+ pretty (generation f))
      else (f, fn) in
    match rotateFile f w fn with
    | (Some err, f, w) => (None, Some (Wrapped err "failed to rotate file"), f, w)
    | (None, f, w) => (file f, None, f, w)
    end
  else (file f, None, f, w).

(** [getWriter] when the clock moves between its two readings.  The
    source reads the clock in [intervalExceeded] and once more for the new
    [baseTime]; [later] is what happens to the world between the two.
    [getWriter f w] is [getWriterAt (fun w => w) f w]. *)
Definition getWriterAt (later : World -> World) (f : File) (w : World)
  : option nat * option error * File * World :=
  let '(sizeExceeded, f, w) := sizeExceeded f w in
  let intervalExceeded := intervalExceeded f w in
  if sizeExceeded || intervalExceeded then
    let w := later w in
    let f := set_baseTime f (truncate (clock f w) (maxInterval f)) in
    let fn := pattern f (baseTime f) in
    let '(f, fn) :=
      if intervalExceeded then (set_generation f 0, fn)
      else if String.eqb fn (filename f) then
        let f := set_generation f (generation f + 1) in
        (f, fn +:+ "." +:+ pretty (generation f))
      else (f, fn) in
    match rotateFile f w fn with
    | (Some err, f, w) => (None, Some (Wrapped err "failed to rotate file"), f, w)
    | (None, f, w) => (file f, None, f, w)
    end
  else (file f, None, f, w).

(** [Write].  Calling [Write] on a nil [io.Writer] panics. *)
Definition Write (f : File) (w : World) (p : list byte)
  : outcome (Z * option error) * File * World :=
  match getWriter f w with
  | (_, Some err, f, w) =>
      (Returns (0, Some (Wrapped err "failed to obtain file handle")), f, w)
  | (Some h, None, f, w) =>
      let '(r, w) := bw_Write h p w in
      (Returns r, f, w)
  | (None, None, f, w) => (Panics, f, w)
  end.

(** [Close]. *)
Definition Close (f : File) (w : World) : option error * File * World :=
  let f := set_cancelled f true in
  let w := match file f with
           | Some h => finalizeWriter h w
           | None => w
           end in
  (None, f, w).

(** [Close], [n] times over. *)
Fixpoint CloseTimes (n : nat) (f : File) (w : World) : list (option error) * File * World :=
  match n with
  | O => ([], f, w)
  | S n' =>
      let '(err, f, w) := Close f w in
      let '(errs, f, w) := CloseTimes n' f w in
      (err :: errs, f, w)
  end.

(** A series of calls of [Write]; before each call the world moves on
    (the clock, the sleeping caller, other processes) as [env] says. *)
Fixpoint WriteSeq (f : File) (w : World) (steps : list ((World -> World) * list byte))
  : File * World :=
  match steps with
  | [] => (f, w)
  | (env, p) :: rest =>
      let '(_, f, w) := Write f (env w) p in
      WriteSeq f w rest
  end.

End WithLibs.

(** No writer handle is open except the one the [File] holds. *)
Definition oneOpen (f : File) (w : World) : bool :=
  forallb (fun p => h_closed (snd p) || bool_decide (file f = Some (fst p)))
          (imap pair (w_handles w)).

(** No writer handle is open. *)
Definition allClosed (w : World) : bool := forallb h_closed (w_handles w).

End Rotating.

(** ** An instance of the libraries

    The fragment of strftime and of path/filepath that the patterns of
    rotating_test.go exercise: the verbs [%Y %m %d %H %M %S] and [%%],
    slash-separated paths, and globs whose only metacharacter is the star. *)

Module StdLibs.
Import GoTime Sys Rotating.

(** Year, month and day of a count of days since 0001-01-01 (proleptic
    Gregorian calendar, by eras of 400 years that begin on 1 March). *)
Definition civilFromDays (days : Z) : Z * Z * Z :=
  let z := days + 306 in
  let era := z / 146097 in
  let doe := z - era * 146097 in
  let yoe := (doe - doe / 1460 + doe / 36524 - doe / 146096) / 365 in
  let doy := doe - (365 * yoe + yoe / 4 - yoe / 100) in
  let mp := (5 * doy + 2) / 153 in
  let d := doy - (153 * mp + 2) / 5 + 1 in
  let m := if mp <? 10 then mp + 3 else mp - 9 in
  let y := yoe + era * 400 + (if m <=? 2 then 1 else 0) in
  (y, m, d).

(** Decimal, zero-padded to [width] digits. *)
Definition padded (width : nat) (n : Z) : string :=
  let digits := pretty n in
  String.concat "" (replicate (width - String.length digits) "0") +:+ digits.

Definition verb (c : ascii) (t : Time) : option string :=
  let secs := civil t / Second in
  let sod := secs mod 86400 in
  let '(y, m, d) := civilFromDays (secs / 86400) in
  match nat_of_ascii c with
  | 89%nat => Some (padded 4 y)
  | 109%nat => Some (padded 2 m)
  | 100%nat => Some (padded 2 d)
  | 72%nat => Some (padded 2 (sod / 3600))
  | 77%nat => Some (padded 2 (sod mod 3600 / 60))
  | 83%nat => Some (padded 2 (sod mod 60))
  | 37%nat => Some "%"
  | _ => None
  end.

(** Expansion of a pattern; [None] for a verb outside the fragment. *)
Fixpoint format (p : string) (t : Time) : option string :=
  match p with
  | EmptyString => Some EmptyString
  | String c rest =>
      if isPercent c then
        match rest with
        | String d rest' =>
            match verb d t, format rest' t with
            | Some v, Some r => Some (v +:+ r)
            | _, _ => None
            end
        | EmptyString => None
        end
      else
        match format rest t with
        | Some r => Some (String c r)
        | None => None
        end
  end.

Definition New (p : string) : result (Time -> string) :=
  match format p zeroTime with
  | Some _ => inl (fun t => default EmptyString (format p t))
  | None => inr (Errorf "failed to compile pattern" ErrBadPattern)
  end.

Definition isSlash (c : ascii) : bool := (nat_of_ascii c =? 47)%nat.

(** The part of a path before its last slash; [None] without a slash. *)
Fixpoint dirOf (path : string) : option string :=
  match path with
  | EmptyString => None
  | String c rest =>
      match dirOf rest with
      | Some d => Some (String c d)
      | None => if isSlash c then Some EmptyString else None
      end
  end.

Definition Dir (path : string) : string :=
  match dirOf path with
  | Some EmptyString => "/"
  | Some d => d
  | None => "."
  end.

(** [Rel] for a target below the base directory. *)
Definition Rel (basepath targpath : string) : result string :=
  let pre := basepath +:+ "/" in
  if HasPrefix targpath pre then
    inl (String.substring (String.length pre)
           (String.length targpath - String.length pre) targpath)
  else inr (Errorf "Rel: can't make relative" (PathError "rel" targpath EINVAL)).

(** Glob matching with the star as the only metacharacter; a star does
    not match a slash. *)
Fixpoint globMatch (pat : string) : string -> bool :=
  match pat with
  | EmptyString => fun name => String.eqb name EmptyString
  | String c pat' =>
      if isStar c then
        fix star (name : string) : bool :=
          globMatch pat' name ||
          match name with
          | EmptyString => false
          | String d name' => negb (isSlash d) && star name'
          end
      else
        fun name =>
          match name with
          | EmptyString => false
          | String d name' => Ascii.eqb c d && globMatch pat' name'
          end
  end.

Definition Glob (pat : string) (files : gmap string FileInfo) : result (list string) :=
  inl (merge_sort str_le (filter (fun name => globMatch pat name = true) (map fst (map_to_list files)))).

#[export] Instance libs : Libs :=
  {| strftime_New := New; filepath_Dir := Dir; filepath_Rel := Rel; filepath_Glob := Glob |}.

End StdLibs.

(** ** Runs of the writer, after rotating_test.go *)

Module Scenario.
Import GoTime Sys Rotating StdLibs.

(** 2021-01-01T00:00:00Z. *)
Definition newYear2021 : Time := mkTime ((1609459200 + unixToInternal) * Second) UTC.

Definition noFault : Syscall -> string -> option errno := fun _ _ => None.

(** A temporary directory, empty; every clock reads 2021-01-01T00:00:00Z. *)
Definition world0 : World :=
  mkWorld newYear2021 newYear2021 0
          {[ "dir" := mkFileInfo 0 newYear2021 Directory ]} ∅ noFault [] [].

(** The caller sleeps: the runtime clock moves on by [d]. *)
Definition sleep (d : Duration) (w : World) : World :=
  mkWorld (w_wall w) (w_fake w) (w_mono w + d) (w_files w) (w_links w) (w_fault w)
          (w_handles w) (w_pending w).

(** [Advance] of the fake clock. *)
Definition advance (d : Duration) (w : World) : World :=
  mkWorld (w_wall w) (Add (w_fake w) d) (w_mono w) (w_files w) (w_links w) (w_fault w)
          (w_handles w) (w_pending w).

Definition set_fake (t : Time) (w : World) : World :=
  mkWorld (w_wall w) t (w_mono w) (w_files w) (w_links w) (w_fault w)
          (w_handles w) (w_pending w).

Definition set_fault (flt : Syscall -> string -> option errno) (w : World) : World :=
  mkWorld (w_wall w) (w_fake w) (w_mono w) (w_files w) (w_links w) flt
          (w_handles w) (w_pending w).

Definition Millisecond : Duration := 1000000.

(** The eleven bytes that TestMaxFileSize writes. *)
Definition line : list byte := (list_byte_of_string "0123456789" ++ [x0a])%list.

Definition logPattern : string := "dir/%Y%m%d-%H%M%S.log".

(** What a run keeps: the writer, the world, and what each call returned. *)
Definition Run : Type := File * World * list (outcome (Z * option error)).

(** [File{}], the value used where [NewFile] would return an error (the
    pattern of the runs below compiles). *)
Definition zeroFile : File :=
  mkFile (mkPolicy 0) zeroTime false 0 ClockLocal None "" 0 "" (fun _ => "") 0 0 0
         Stopped 0 "".

Definition open (options : list Option) (w : World) : Run :=
  match NewFile logPattern options w with
  | inl f => (f, w, [])
  | inr _ => (zeroFile, w, [])
  end.

Definition write (p : list byte) (r : Run) : Run :=
  let '(f, w, outs) := r in
  let '(out, f, w) := Write f w p in
  (f, w, (outs ++ [out])%list).

Definition close (r : Run) : Run :=
  let '(f, w, outs) := r in
  let '(_, f, w) := Close f w in
  (f, w, outs).

Definition pass (g : World -> World) (r : Run) : Run :=
  let '(f, w, outs) := r in (f, g w, outs).

Definition names (w : World) : list string :=
  merge_sort str_le (map fst (map_to_list (w_files w))).

(** TestMaxFileSize, with one more write. *)
Definition sizeOptions : list Option :=
  [WithClock fakeClock; WithMaxFileSize 10; WithCheckInterval (100 * Millisecond)].

Definition sizeRun (n : nat) : Run :=
  Nat.iter n (fun r => write line (pass (sleep (200 * Millisecond)) r))
           (write line (open sizeOptions world0)).

(** No size limit, but a check interval: one write, then somebody removes
    the log file and the check comes due. *)
Definition removedRun : Run :=
  pass (sleep (200 * Millisecond))
       (pass (os_Remove "dir/20210101-000000.log")
             (write line (open [WithClock fakeClock; WithCheckInterval (100 * Millisecond)] world0))).

Definition removedFile : File := fst (fst removedRun).
Definition removedWorld : World := snd (fst removedRun).

(** TestRotationCount: twenty writes, the clock advanced after the tenth;
    the deletion goroutines started by one write have run by the next. *)
Definition rotationOptions : list Option :=
  [WithClock fakeClock; WithMaxFileSize 1; WithMaxInterval (5 * Second);
   WithCheckInterval (100 * Millisecond); WithRotationCount 5].

Fixpoint rotationLoop (n : nat) (i : Z) (r : Run) : Run :=
  match n with
  | O => r
  | S n' =>
      let r := write line (pass runPending r) in
      let r := pass (sleep (150 * Millisecond)) r in
      let r := if i =? 9 then pass (advance (6 * Second)) r else r in
      rotationLoop n' (i + 1) r
  end.

Definition rotationRun : Run := rotationLoop 20 0 (open rotationOptions world0).

(** The writer and the world at the end of that run, when the deletion
    started by the last write has not run yet: six log files are there. *)
Definition lastFile : File := fst (fst rotationRun).
Definition lastWorld : World := set_pending (snd (fst rotationRun)) [].
Definition lastMatches : list string :=
  match filepath_Glob (globPattern lastFile) (w_files lastWorld) with
  | inl matches => matches
  | inr _ => []
  end.

(** A writer that keeps a symlink beside its log files and one rotation:
    one write. *)
Definition keepOneOptions : list Option :=
  [WithClock fakeClock; WithMaxInterval (5 * Second); WithSymlink "dir/current.log";
   WithRotationCount 1].

Definition keepOneRun : Run := write line (open keepOneOptions world0).
Definition keepOneFile : File := fst (fst keepOneRun).
Definition keepOneWorld : World := snd (fst keepOneRun).

(** TestRotationCount with a symlink beside the log files. *)
Definition linkedRotation : Run :=
  rotationLoop 20 0 (open (rotationOptions ++ [WithSymlink "dir/current.log"]) world0).

(** Five rotations to keep and a size limit that every line exceeds, all
    in one time slot: the first write and [n] more, each after the check
    has come due and the deletions started before it have run. *)
Definition slotOptions : list Option :=
  [WithClock fakeClock; WithMaxFileSize 10; WithCheckInterval (100 * Millisecond);
   WithRotationCount 5].

Definition slotRun (n : nat) : Run :=
  Nat.iter n (fun r => write line (pass (sleep (200 * Millisecond)) (pass runPending r)))
           (write line (open slotOptions world0)).

(** TestMaxInterval: a write, six seconds on the clock, a write. *)
Definition intervalOptions : list Option :=
  [WithClock fakeClock; WithMaxInterval (5 * Second)].



(** Opening one path fails with permission denied. *)
Definition denyOpen (path : string) : Syscall -> string -> option errno :=
  fun call p =>
    match call with
    | SysOpen => if String.eqb p path then Some EACCES else None
    | _ => None
    end.

(** One write, then the clock moves into the next slot, whose file cannot
    be opened. *)
Definition beforeFailure : Run :=
  pass (set_fault (denyOpen "dir/20210101-000005.log"))
       (pass (advance (6 * Second)) (write line (open intervalOptions world0))).

Definition afterFailure : Run := write line beforeFailure.

(** The first file cannot be opened; two writes. *)
Definition firstFails : Run :=
  write line
    (write line
       (pass (set_fault (denyOpen "dir/20210101-000000.log")) (open intervalOptions world0))).

(** One write. *)
Definition writtenOnce : Run := write line (open intervalOptions world0).


(** A size limit that one line does not reach, checked every 100ms: a
    write, [Close], and 200ms on the runtime clock. *)
Definition roomyOptions : list Option :=
  [WithClock fakeClock; WithMaxFileSize 100; WithCheckInterval (100 * Millisecond)].

Definition roomyFile : File := fst (fst (write line (open roomyOptions world0))).
Definition roomyWorld : World := snd (fst (write line (open roomyOptions world0))).
Definition roomyLater : World :=
  sleep (200 * Millisecond) (snd (CloseTimes 1 roomyFile roomyWorld)).

(** A clock that reads the zero time; one write. *)
Definition zeroClockRun : Run :=
  write line (open intervalOptions (set_fake zeroTime world0)).

(** The second rotation of [sizeRun]: the writer and the world when the
    new file has just been created, before the swap. *)
Definition swapFile : File := fst (fst (sizeRun 0)).
Definition swapWorld : World :=
  snd (createFile "dir/20210101-000000.log.1" (snd (fst (sizeRun 0)))).

(** A writer that keeps a symlink to its current file; one write. *)
Definition linkOptions : list Option :=
  [WithClock fakeClock; WithMaxInterval (5 * Second); WithSymlink "dir/current.log"].

Definition linkRun : Run := write line (open linkOptions world0).
Definition linkFile : File := fst (fst linkRun).
Definition linkWorld : World := snd (fst linkRun).

(** The writer of [writtenOnce], and its world six seconds later. *)
Definition onceFile : File := fst (fst writtenOnce).
Definition onceWorld : World := snd (fst writtenOnce).
Definition nextSlotWorld : World := advance (6 * Second) onceWorld.

(** The writer of [sizeRun] after its first write, and its world when the
    size check has come due. *)
Definition fullFile : File := fst (fst (sizeRun 0)).
Definition fullWorld : World := snd (fst (sizeRun 0)).
Definition dueWorld : World := sleep (200 * Millisecond) fullWorld.

(** The writer of [writtenOnce] after [Close]. *)
Definition closedFile : File := fst (fst (close writtenOnce)).
Definition closedWorld : World := snd (fst (close writtenOnce)).

(** The writer and the world of [beforeFailure], and the error that
    [createFile] gets there. *)
Definition deniedFile : File := fst (fst beforeFailure).
Definition deniedWorld : World := snd (fst beforeFailure).
Definition deniedError : error :=
  Errorf "failed to open file dir/20210101-000005.log"
         (PathError "open" "dir/20210101-000005.log" EACCES).

End Scenario.


(** * Properties *)

(** Closed goals about the runs are settled by evaluation, conjunct by
    conjunct. *)
Ltac conjuncts := repeat match goal with |- _ /\ _ => split end.
Ltac evaluate := cbv zeta; conjuncts; vm_compute; first [reflexivity | discriminate].

(** ** truncate *)

Section Truncate.
Import GoTime.

Lemma floor_multiple (i x : Z) : 0 < i -> greatest_multiple_le i x (x - x mod i).
Proof.
  intros Hi. unfold greatest_multiple_le. repeat split.
  - exists (x / i). pose proof (Z.div_mod x i). lia.
  - pose proof (Z.mod_pos_bound x i Hi). lia.
  - intros m [k ->] Hle.
    assert (Hk : k <= x / i) by (apply Z.div_le_lower_bound; lia).
    pose proof (Z.div_mod x i). nia.
Qed.

Lemma civil_UTC (a : Z) : civil (mkTime a UTC) = a.
Proof. unfold civil, offsetOf. simpl. lia. Qed.

Lemma recompose (c k : Z) : (c / Second - k + k) * Second + c mod Second = c.
Proof. pose proof (Z.div_mod c Second). unfold Second, Nanosecond in *. lia. Qed.

Lemma Date_UTC (c : Z) : Date c UTC = mkTime c UTC.
Proof. unfold Date. simpl. f_equal. apply recompose. Qed.

Lemma Date_FixedZone (c off : Z) :
  Date c (FixedZone off) = mkTime (c - off * Second) (FixedZone off).
Proof.
  unfold Date. simpl. f_equal.
  pose proof (recompose c unixToInternal) as Hc.
  destruct (off =? 0) eqn:Hoff.
  - apply Z.eqb_eq in Hoff. subst off. lia.
  - destruct (_ <? alpha); [| destruct (_ >=? omega)]; lia.
Qed.

Lemma civil_FixedZone (a off : Z) : civil (mkTime a (FixedZone off)) = a + off * Second.
Proof. reflexivity. Qed.

Lemma loc_Date (c : Z) (l : Location) : loc (Date c l) = l.
Proof. unfold Date. destruct (lookup l _) as [[o s] e]. reflexivity. Qed.

(** The wall-clock reading of an instant given by its Unix second. *)
Lemma civil_at (x r : Z) (l : Location) :
  0 <= r < Second ->
  civil (mkTime ((x + unixToInternal) * Second + r) l)
  = (x + unixToInternal) * Second + r + fst (fst (lookup l x)) * Second.
Proof.
  intros Hr. unfold civil, offsetOf, unixSec. simpl abs. simpl loc.
  replace (((x + unixToInternal) * Second + r) / Second) with (x + unixToInternal).
  - replace (x + unixToInternal - unixToInternal) with x by lia. reflexivity.
  - apply Z.div_unique with r; [left; exact Hr | lia].
Qed.

(** For a positive interval [truncate] asks [time.Date] for the truncated
    wall-clock reading, in the location of its argument. *)
Lemma truncate_Date (t : Time) (i : Z) :
  0 < i -> truncate t i = Date (civil t - civil t mod i) (loc t).
Proof.
  intros Hi. assert (Hnle : (i <=? 0) = false) by (apply Z.leb_gt; exact Hi).
  destruct t as [a l]. unfold truncate. simpl loc. destruct l as [| f].
  - unfold Truncate. rewrite Hnle. simpl abs. simpl loc.
    rewrite civil_UTC, Date_UTC. reflexivity.
  - rewrite Date_UTC. unfold Truncate. rewrite Hnle. simpl abs. simpl loc.
    rewrite civil_UTC. reflexivity.
Qed.

(** UTC and the zones of fixed offset have every reading. *)
Lemma resolves_fixed_offset (l : Location) (c : Z) : fixed_offset l -> resolves l c.
Proof.
  unfold resolves. intros [-> | [off ->]].
  - rewrite Date_UTC. apply civil_UTC.
  - rewrite Date_FixedZone, civil_FixedZone. lia.
Qed.

(** Across a transition [time.Date] finds every reading that some instant
    of the location shows: the readings it misses are those that are
    skipped when the offset grows. *)
Lemma resolves_shown (a b T c : Z) :
  alpha < T <= omega ->
  (exists u, civil (mkTime u (oneTransition a b T)) = c) ->
  resolves (oneTransition a b T) c.
Proof.
  intros HT [u Hu]. unfold resolves.
  assert (HS : 0 < Second) by reflexivity.
  pose proof (Z.mod_pos_bound c Second HS) as Hr.
  pose proof (Z.div_mod c Second ltac:(lia)) as Hc.
  set (off := fun x : Z => if x <? T then a else b).
  assert (Hoff : forall x, fst (fst (lookup (oneTransition a b T) x)) = off x).
  { intros x. unfold off. simpl. destruct (x <? T); reflexivity. }
  assert (Hk : c / Second - unixToInternal
               = (u / Second - unixToInternal) + off (u / Second - unixToInternal)).
  { unfold civil, offsetOf, unixSec in Hu. simpl abs in Hu. simpl loc in Hu.
    rewrite Hoff in Hu. rewrite <- Hu. rewrite Z.div_add by lia. lia. }
  set (uq := u / Second - unixToInternal) in *.
  set (unix := c / Second - unixToInternal) in *.
  assert (Hgoal : forall x, x + off x = unix ->
            civil (mkTime ((x + unixToInternal) * Second + c mod Second) (oneTransition a b T)) = c).
  { intros x Hx. rewrite civil_at by exact Hr. rewrite Hoff. subst unix. lia. }
  unfold Date. fold unix. simpl lookup.
  unfold off in Hk, Hgoal.
  assert (Hcase : (uq < T /\ unix = uq + a) \/ (T <= uq /\ unix = uq + b)).
  { destruct (uq <? T) eqn:Huq; [apply Z.ltb_lt in Huq | apply Z.ltb_ge in Huq]; lia. }
  clear Hk.
  repeat match goal with
         | |- context [if ?x <? ?y then _ else _] => destruct (x <? y) eqn:?
         | |- context [if ?x >=? ?y then _ else _] => destruct (x >=? y) eqn:?
         | |- context [if ?x =? ?y then _ else _] => destruct (x =? y) eqn:?
         | |- context [lookup] => simpl lookup
         | |- context [fst (_, _)] => simpl fst
         end.
  all: apply Hgoal.
  all: repeat match goal with
         | |- context [if ?x <? ?y then _ else _] => destruct (x <? y) eqn:?
         end.
  all: repeat match goal with
       | H : (_ >=? _) = true |- _ => rewrite Z.geb_leb in H; apply Z.leb_le in H
       | H : (_ >=? _) = false |- _ => rewrite Z.geb_leb in H; apply Z.leb_gt in H
       | H : (_ <? _) = true |- _ => apply Z.ltb_lt in H
       | H : (_ <? _) = false |- _ => apply Z.ltb_ge in H
       | H : (_ =? _) = true |- _ => apply Z.eqb_eq in H
       | H : (_ =? _) = false |- _ => apply Z.eqb_neq in H
       end.
  all: lia.
Qed.

(** C2, as the code has it: for a positive interval, whenever the location
    of [t] has the truncated wall-clock reading, the wall-clock reading of
    [truncate t i] is the greatest multiple of [i] that does not exceed the
    wall-clock reading of [t]; it is computed from the wall-clock reading
    alone, whatever the offset is, and the location of [t] is kept.  UTC and
    the zones of fixed offset have every reading; a location with a
    transition has every reading that one of its instants shows, and no
    location has a reading that none of its instants shows. *)
Theorem truncate_civil (t : Time) (i : Z) :
  0 < i ->
  (resolves (loc t) (civil t - civil t mod i) ->
   greatest_multiple_le i (civil t) (civil (truncate t i)) /\
   civil (truncate t i) = civil t - civil t mod i /\
   loc (truncate t i) = loc t) /\
  (fixed_offset (loc t) -> resolves (loc t) (civil t - civil t mod i)) /\
  (forall a b T,
     alpha < T <= omega -> loc t = oneTransition a b T ->
     (exists u, civil (mkTime u (loc t)) = civil t - civil t mod i) ->
     resolves (loc t) (civil t - civil t mod i)) /\
  (resolves (loc t) (civil t - civil t mod i) ->
   exists u, civil (mkTime u (loc t)) = civil t - civil t mod i).
Proof.
  intros Hi. split; [| split; [| split]].
  - intros Hres. rewrite (truncate_Date t i Hi).
    unfold resolves in Hres. rewrite Hres, loc_Date.
    split; [apply floor_multiple; exact Hi |]. split; reflexivity.
  - apply resolves_fixed_offset.
  - intros a b T HT -> Hshown. apply resolves_shown; assumption.
  - unfold resolves. intros Hres.
    exists (abs (Date (civil t - civil t mod i) (loc t))).
    rewrite <- Hres at 2. f_equal.
    pose proof (loc_Date (civil t - civil t mod i) (loc t)) as Hl.
    destruct (Date (civil t - civil t mod i) (loc t)) as [a l]. simpl in *. congruence.
Qed.

(** The theorem at 2021-03-14 08:10 in New York, the morning after the
    clocks went forward, and an interval of one hour: 08:00. *)
Lemma truncate_civil_witness :
  greatest_multiple_le Hour (civil morningAfter) (civil (truncate morningAfter Hour)) /\
  civil (truncate morningAfter Hour) = civil morningAfter - civil morningAfter mod Hour /\
  loc (truncate morningAfter Hour) = loc morningAfter.
Proof.
  refine (proj1 (truncate_civil morningAfter Hour _) _).
  - reflexivity.
  - vm_compute. reflexivity.
Defined.

(** That morning's 08:10 -0400 truncated to the hour is 08:00 -0400. *)
Example truncate_new_york :
  abs (truncate morningAfter Hour) = (springForward + 5 * 3600 + unixToInternal) * Second.
Proof. vm_compute. reflexivity. Qed.

(** What TestTruncate expects of the third case: 00:05:30.00000003 in Tokyo
    truncated to the minute is 00:05:00 in Tokyo. *)
Example truncate_tokyo :
  truncate (mkTime ((1609426800 + unixToInternal) * Second + 330 * Second + 30) (FixedZone 32400))
           Minute
  = mkTime ((1609426800 + unixToInternal) * Second + 300 * Second) (FixedZone 32400).
Proof. vm_compute. reflexivity. Qed.

(** C2 as stated fails where the zone has a transition: truncating
    2021-03-14 03:10 in New York to two hours asks for 02:00, a wall-clock
    reading that day does not have, and [time.Date] answers 01:00, which is
    no multiple of two hours. *)
Lemma truncate_dst_gap :
  ~ greatest_multiple_le (2 * Hour) (civil afterSpringForward)
      (civil (truncate afterSpringForward (2 * Hour))).
Proof.
  intros [Hdiv _]. apply Z.mod_divide in Hdiv; [| discriminate].
  vm_compute in Hdiv. discriminate.
Qed.

(** [truncate] in closed form. *)
Lemma truncate_fixed (t : Time) (i : Z) :
  fixed_offset (loc t) ->
  truncate t i = if i <=? 0 then t else mkTime (abs t - civil t mod i) (loc t).
Proof.
  destruct t as [a l]. simpl. intros [-> | [off ->]].
  - unfold truncate, Truncate. simpl. rewrite civil_UTC. reflexivity.
  - unfold truncate. simpl loc.
    change (match FixedZone off with UTC => Truncate (mkTime a (FixedZone off)) i
            | Zone _ => Date (civil (Truncate (Date (civil (mkTime a (FixedZone off))) UTC) i)) (FixedZone off) end)
      with (Date (civil (Truncate (Date (civil (mkTime a (FixedZone off))) UTC) i)) (FixedZone off)).
    rewrite civil_FixedZone, Date_UTC. unfold Truncate.
    destruct (i <=? 0); simpl abs; simpl loc; rewrite civil_UTC, Date_FixedZone; f_equal; lia.
Qed.

Lemma civil_fixed (a : Z) (l : Location) :
  fixed_offset l -> exists k, forall b, civil (mkTime b l) = b + k.
Proof.
  intros [-> | [off ->]].
  - exists 0. intros b. rewrite civil_UTC. lia.
  - exists (off * Second). intros b. apply civil_FixedZone.
Qed.

(** In UTC and the zones of fixed offset the truncation of a reading is
    the zero instant only for readings of the first interval after it. *)
Lemma truncate_not_zero (t : Time) (i : Z) :
  fixed_offset (loc t) ->
  0 < i <= abs t \/ (i <= 0 /\ abs t <> 0) ->
  abs (truncate t i) <> 0.
Proof.
  intros Hl Hcase. rewrite (truncate_fixed t i Hl).
  destruct (i <=? 0) eqn:Hi; [apply Z.leb_le in Hi | apply Z.leb_gt in Hi].
  - destruct Hcase as [Hpos | [_ Hne]]; [lia | exact Hne].
  - simpl abs. destruct Hcase as [Hpos | [Hle _]]; [| lia].
    pose proof (Z.mod_pos_bound (civil t) i Hi). lia.
Qed.

(** The reading that the counterexample asks for, 02:00 on 2021-03-14, is
    one that New York does not have. *)
Example gap_reading_unresolved :
  ~ resolves newYork2021
      (civil afterSpringForward - civil afterSpringForward mod (2 * Hour)).
Proof. unfold resolves. vm_compute. discriminate. Qed.

End Truncate.

(** ** The size probe *)

Section SizeProbe.
Import GoTime Sys Rotating Scenario.

(** Before the deadline the probe answers false and statts nothing. *)
Lemma sizeExceeded_not_due (f : File) (w : World) :
  ready (nextCheck f) w = false -> sizeExceeded f w = (false, f, w).
Proof. intros Hr. unfold sizeExceeded. rewrite Hr. reflexivity. Qed.

(** When the check is due and a writer is held, the answer is read off the
    stat of the current file name, taken after the flush. *)
Lemma sizeExceeded_due (f : File) (w : World) (h : nat) :
  ready (nextCheck f) w = true -> file f = Some h ->
  fst (fst (sizeExceeded f w)) =
  match os_Stat (filename f) (flushWriter h w) with
  | inr err => IsNotExist err
  | inl fi => (maxFileSize f >=? 0) && (Size fi >=? maxFileSize f)
  end.
Proof.
  intros Hr Hf. unfold sizeExceeded. rewrite Hr. simpl. rewrite Hf.
  destruct (os_Stat _ _) as [fi | err]; [reflexivity |].
  simpl. destruct (IsNotExist err); reflexivity.
Qed.

(** C8: when the check is due and a writer is held, so that the current
    file is statted by path, a stat that fails with not-found makes the
    probe answer true and a stat that fails otherwise makes it answer
    false. *)
Theorem sizeExceeded_stat_failure (f : File) (w : World) (h : nat) (err : error) :
  ready (nextCheck f) w = true -> file f = Some h ->
  os_Stat (filename f) (flushWriter h w) = inr err ->
  (IsNotExist err = true -> fst (fst (sizeExceeded f w)) = true) /\
  (IsNotExist err = false -> fst (fst (sizeExceeded f w)) = false).
Proof.
  intros Hr Hf Hstat. rewrite (sizeExceeded_due f w h Hr Hf), Hstat.
  split; intros ->; reflexivity.
Qed.

(** The theorem on the run in which the log file was removed. *)
Lemma sizeExceeded_stat_failure_witness :
  fst (fst (sizeExceeded removedFile removedWorld)) = true.
Proof.
  apply (sizeExceeded_stat_failure removedFile removedWorld 0%nat
           (PathError "stat" "dir/20210101-000000.log" ENOENT));
    vm_compute; reflexivity.
Defined.

(** C7, as the code has it: with [maxFileSize <= 0] the probe answers false
    when the check is not due, when no writer is held, and when the stat
    fails for a reason other than not-found; with [maxFileSize < 0] it
    answers false as well when the stat succeeds; and when the check is due,
    a writer is held and the file is not found, it answers true. *)
Theorem sizeExceeded_disabled (f : File) (w : World) :
  maxFileSize f <= 0 ->
  (ready (nextCheck f) w = false -> fst (fst (sizeExceeded f w)) = false) /\
  (file f = None -> fst (fst (sizeExceeded f w)) = false) /\
  (forall h, ready (nextCheck f) w = true -> file f = Some h ->
     match os_Stat (filename f) (flushWriter h w) with
     | inr err => fst (fst (sizeExceeded f w)) = IsNotExist err
     | inl fi => maxFileSize f < 0 -> fst (fst (sizeExceeded f w)) = false
     end).
Proof.
  intros Hmax. repeat split.
  - intros Hr. rewrite (sizeExceeded_not_due f w Hr). reflexivity.
  - intros Hf. unfold sizeExceeded. destruct (ready _ _); simpl; [| reflexivity].
    rewrite Hf. reflexivity.
  - intros h Hr Hf. rewrite (sizeExceeded_due f w h Hr Hf).
    destruct (os_Stat _ _) as [fi | err]; [| reflexivity].
    intros Hneg. replace (maxFileSize f >=? 0) with false; [reflexivity |].
    symmetry. rewrite Z.geb_leb. apply Z.leb_gt. exact Hneg.
Qed.

(** The theorem on the run in which the log file was removed: the check is
    due, the writer is held, and the file is not found. *)
Lemma sizeExceeded_disabled_witness :
  match os_Stat (filename removedFile) (flushWriter 0%nat removedWorld) with
  | inr err => fst (fst (sizeExceeded removedFile removedWorld)) = IsNotExist err
  | inl fi => maxFileSize removedFile < 0 -> fst (fst (sizeExceeded removedFile removedWorld)) = false
  end.
Proof.
  assert (Hmax : maxFileSize removedFile <= 0) by (vm_compute; discriminate).
  destruct (sizeExceeded_disabled removedFile removedWorld Hmax) as (_ & _ & Hdue).
  apply (Hdue 0%nat); vm_compute; reflexivity.
Defined.

(** C7 as stated fails: no size limit is set ([maxFileSize = 0]), and yet
    the probe answers true once the log file has been removed. *)
Lemma sizeExceeded_disabled_missing_file :
  maxFileSize removedFile <= 0 /\
  fst (fst (sizeExceeded removedFile removedWorld)) = true.
Proof. evaluate. Qed.

End SizeProbe.

(** ** Ordering of file names *)

Section NameOrder.
Import Rotating.

Lemma ascii_compare_lt_trans (a b c : ascii) :
  Ascii.compare a b = Lt -> Ascii.compare b c = Lt -> Ascii.compare a c = Lt.
Proof.
  unfold Ascii.compare. rewrite !N.compare_lt_iff. intros H1 H2.
  exact (N.lt_trans _ _ _ H1 H2).
Qed.

Lemma string_compare_lt_trans (s1 : string) :
  forall s2 s3, String.compare s1 s2 = Lt -> String.compare s2 s3 = Lt ->
                String.compare s1 s3 = Lt.
Proof.
  induction s1 as [| a s1 IH]; intros [| b s2] [| c s3]; simpl; try congruence.
  destruct (Ascii.compare a b) eqn:Hab; try discriminate;
    destruct (Ascii.compare b c) eqn:Hbc; try discriminate; intros H1 H2.
  - apply Ascii.compare_eq_iff in Hab, Hbc. subst.
    replace (Ascii.compare c c) with Eq; [eauto |].
    symmetry. unfold Ascii.compare. apply N.compare_refl.
  - apply Ascii.compare_eq_iff in Hab. subst. rewrite Hbc. reflexivity.
  - apply Ascii.compare_eq_iff in Hbc. subst. rewrite Hab. reflexivity.
  - rewrite (ascii_compare_lt_trans a b c Hab Hbc). reflexivity.
Qed.

Lemma str_le_cases (a b : string) :
  str_le a b <-> a = b \/ String.compare a b = Lt.
Proof.
  unfold str_le, String.leb. split.
  - destruct (String.compare a b) eqn:Hc; intros Hle; try discriminate.
    + left. apply String.compare_eq_iff. exact Hc.
    + right. reflexivity.
  - intros [-> | ->]; [| reflexivity].
    destruct (String.compare b b) eqn:Hc; try reflexivity.
    pose proof (String.compare_antisym b b) as Ha. rewrite Hc in Ha. discriminate.
Qed.

#[global] Instance str_le_trans : Transitive str_le.
Proof.
  intros a b c. rewrite !str_le_cases. intros [-> | Hab] [-> | Hbc]; auto.
  right. exact (string_compare_lt_trans a b c Hab Hbc).
Qed.

#[global] Instance str_le_total : Total str_le.
Proof. intros a b. exact (String.leb_total a b). Qed.

(** [strings.Compare(a, b) < 0]. *)
Lemma str_lt_of_le (a b : string) : str_le a b -> a <> b -> String.ltb a b = true.
Proof.
  rewrite str_le_cases. intros [-> | Hlt] Hne; [congruence |].
  unfold String.ltb. rewrite Hlt. reflexivity.
Qed.

Lemma StronglySorted_sub {A} (R : relation A) (l k : list A) :
  sublist k l -> StronglySorted R l -> StronglySorted R k.
Proof.
  induction 1 as [| x k l Hs IH | x k l Hs IH]; intros Hl.
  - constructor.
  - apply StronglySorted_cons in Hl as [Hall Hl]. apply StronglySorted_cons. split; [| auto].
    rewrite Forall_forall in *. intros y Hy. apply Hall.
    eapply elem_of_sublist; eauto.
  - apply StronglySorted_cons in Hl as [_ Hl]. auto.
Qed.

End NameOrder.

(** ** The retention purge *)

Section Purge.
Import GoTime Sys Rotating.

(** Whether the link was read does not depend on the map. *)
Lemma protectTarget_snd (f : File) (w : World) (stats : gmap string FileInfo) :
  snd (protectTarget f w stats) = purgeProtected f w.
Proof.
  unfold purgeProtected, protectTarget.
  destruct (String.eqb (symlink f) ""); [reflexivity |].
  destruct (os_Readlink _ _); reflexivity.
Qed.

Lemma purgeProtected_no_symlink (f : File) (w : World) :
  symlink f = "" -> purgeProtected f w = false.
Proof. intros Hs. unfold purgeProtected, protectTarget. rewrite Hs. reflexivity. Qed.

(** The sorted keys are in strictly ascending order of name. *)
Lemma sortedKeys_ascending (stats : gmap string FileInfo) :
  StronglySorted (fun a b => String.ltb a b = true) (sortedKeys stats).
Proof.
  unfold sortedKeys.
  assert (Hnd : NoDup (merge_sort str_le (map fst (map_to_list stats)))).
  { rewrite merge_sort_Permutation. apply NoDup_fst_map_to_list. }
  assert (Hss : StronglySorted str_le (merge_sort str_le (map fst (map_to_list stats)))).
  { apply StronglySorted_merge_sort; apply _. }
  induction Hss as [| x l Hss IH Hall]; [constructor |].
  apply NoDup_cons in Hnd as [Hx Hnd]. constructor; [auto |].
  rewrite Forall_forall in *. intros y Hy. apply str_lt_of_le; [auto |].
  intros ->. contradiction.
Qed.

(** [candidates] keeps the order of [matches]. *)
Lemma classify_sublist (stats : gmap string FileInfo) (age : Z) (cutoff : Time)
      (matches : list string) :
  sublist (snd (classify stats age cutoff matches)) matches.
Proof.
  induction matches as [| path rest IH]; simpl; [constructor |].
  destruct (classify stats age cutoff rest) as [tp cs]. simpl in IH.
  destruct (stats !! path) as [fi |]; [| simpl; constructor; exact IH].
  destruct (_ && _); [simpl; constructor; exact IH |].
  destruct (FileMode fi); simpl; constructor; exact IH.
Qed.

Lemma purgeCandidates_ascending (f : File) (w : World) (matches : list string) :
  StronglySorted (fun a b => String.ltb a b = true) (purgeCandidates f w matches).
Proof.
  unfold purgeCandidates. destruct (protectTarget f w _) as [stats p].
  eapply StronglySorted_sub; [apply classify_sublist | apply sortedKeys_ascending].
Qed.

(** The map of the first loop holds matches only, and none of the
    temporary files. *)
Lemma statAll_lookup (matches : list string) (w : World) :
  forall (stats : gmap string FileInfo) (path : string),
    is_Some (statAll matches w stats !! path) ->
    is_Some (stats !! path) \/ (path ∈ matches /\ isTemporary path = false).
Proof.
  induction matches as [| m rest IH]; intros stats path Hin; simpl in *; [left; exact Hin |].
  destruct (isTemporary m) eqn:Htmp.
  - destruct (IH _ _ Hin) as [Hs | [Hm Ht]]; [left; exact Hs |].
    right. split; [apply elem_of_cons; right; exact Hm | exact Ht].
  - destruct (os_Lstat m w) as [fi | err].
    + destruct (IH _ _ Hin) as [Hs | [Hm Ht]].
      * destruct (decide (m = path)) as [-> | Hne].
        -- right. split; [apply elem_of_cons; left; reflexivity | exact Htmp].
        -- left. rewrite lookup_insert_ne in Hs by exact Hne. exact Hs.
      * right. split; [apply elem_of_cons; right; exact Hm | exact Ht].
    + destruct (IH _ _ Hin) as [Hs | [Hm Ht]]; [left; exact Hs |].
      right. split; [apply elem_of_cons; right; exact Hm | exact Ht].
Qed.

(** Both lists of the second loop hold keys of the map, [toPurge] and
    [candidates] have no path in common. *)
Lemma classify_elem (stats : gmap string FileInfo) (age : Z) (cutoff : Time)
      (matches : list string) (x : string) :
  x ∈ fst (classify stats age cutoff matches) \/ x ∈ snd (classify stats age cutoff matches) ->
  x ∈ matches /\ is_Some (stats !! x).
Proof.
  induction matches as [| path rest IH]; simpl.
  - intros [Hx | Hx]; inversion Hx.
  - destruct (classify stats age cutoff rest) as [tp cs]. simpl in IH.
    assert (Hrest : x ∈ tp \/ x ∈ cs -> x ∈ path :: rest /\ is_Some (stats !! x)).
    { intros Hx. destruct (IH Hx) as [Hin Hs].
      split; [apply elem_of_cons; right; exact Hin | exact Hs]. }
    destruct (stats !! path) as [fi |] eqn:Hfi; [| exact Hrest].
    assert (Hhead : x = path -> x ∈ path :: rest /\ is_Some (stats !! x)).
    { intros ->. split; [apply elem_of_cons; left; reflexivity | rewrite Hfi; eauto]. }
    destruct (_ && _); simpl.
    + intros [Hx | Hx]; [| auto].
      apply elem_of_cons in Hx as [Hx | Hx]; auto.
    + destruct (FileMode fi); simpl; intros [Hx | Hx]; auto;
        apply elem_of_cons in Hx as [Hx | Hx]; auto.
Qed.

Lemma classify_disjoint (stats : gmap string FileInfo) (age : Z) (cutoff : Time)
      (matches : list string) (x : string) :
  NoDup matches ->
  x ∈ fst (classify stats age cutoff matches) ->
  x ∈ snd (classify stats age cutoff matches) -> False.
Proof.
  induction matches as [| path rest IH]; simpl; intros Hnd.
  - intros Hx. inversion Hx.
  - apply NoDup_cons in Hnd as [Hpath Hnd]. specialize (IH Hnd).
    pose proof (classify_elem stats age cutoff rest path) as Hel.
    destruct (classify stats age cutoff rest) as [tp cs]. simpl in *.
    assert (Hfresh : path ∈ tp \/ path ∈ cs -> False)
      by (intros Hin; apply Hpath, Hel, Hin).
    destruct (stats !! path) as [fi |]; [| exact IH].
    destruct (_ && _); simpl.
    + intros Hx Hy. apply elem_of_cons in Hx as [-> | Hx]; [| exact (IH Hx Hy)].
      apply Hfresh. right. exact Hy.
    + destruct (FileMode fi); simpl; intros Hx Hy; try exact (IH Hx Hy);
        (apply elem_of_cons in Hy as [-> | Hy]; [| exact (IH Hx Hy)]);
        apply Hfresh; left; exact Hx.
Qed.

Lemma sortedKeys_NoDup (stats : gmap string FileInfo) : NoDup (sortedKeys stats).
Proof. unfold sortedKeys. rewrite merge_sort_Permutation. apply NoDup_fst_map_to_list. Qed.

(** No path is both marked by the age rule and a candidate. *)
Lemma purgeByAge_not_candidate (f : File) (w : World) (matches : list string) (x : string) :
  x ∈ purgeByAge f w matches -> x ∈ purgeCandidates f w matches -> False.
Proof.
  unfold purgeByAge, purgeCandidates. destruct (protectTarget f w _) as [stats p].
  apply classify_disjoint, sortedKeys_NoDup.
Qed.

(** What the earlier steps have taken out of [candidates]: everything that
    is no match, the lock and staging files, and the target that was read
    from the link. *)
Lemma purgeCandidates_excluded (f : File) (w : World) (matches : list string) (x : string) :
  x ∈ purgeCandidates f w matches ->
  x ∈ matches /\ isTemporary x = false /\
  (forall dst, symlink f <> "" -> os_Readlink (symlink f) w = inl dst -> x <> dst).
Proof.
  unfold purgeCandidates, protectTarget. intros Hx.
  assert (Hkey : is_Some (statAll matches w ∅ !! x) /\
                 (forall dst, symlink f <> "" -> os_Readlink (symlink f) w = inl dst -> x <> dst)).
  { destruct (String.eqb (symlink f) "") eqn:Hsym.
    - apply String.eqb_eq in Hsym. simpl in Hx.
      split; [| intros dst Hne; contradiction].
      eapply classify_elem. right. exact Hx.
    - destruct (os_Readlink (symlink f) w) as [dst |] eqn:Hread; simpl in Hx.
      + assert (Hs : is_Some (delete dst (statAll matches w ∅) !! x))
          by (eapply classify_elem; right; exact Hx).
        clear Hx. rename Hs into Hx.
        destruct (decide (dst = x)) as [-> | Hne].
        * rewrite lookup_delete_eq in Hx. destruct Hx as [? Hx]. discriminate.
        * rewrite lookup_delete_ne in Hx by exact Hne.
          split; [exact Hx |]. intros dst' _ [= <-]. congruence.
      + split; [| intros dst _ Hd; discriminate].
        eapply classify_elem. right. exact Hx. }
  destruct Hkey as [Hs Hdst].
  destruct (statAll_lookup matches w ∅ x Hs) as [Hempty | [Hm Ht]].
  - rewrite lookup_empty in Hempty. destruct Hempty as [? Hempty]. discriminate.
  - auto.
Qed.

(** [toPurge] is what the age rule put there, then the head of
    [candidates] that the count rule cuts off. *)
Lemma selectPurge_split (f : File) (w : World) (matches : list string) :
  0 < rotationCount f ->
  selectPurge f w matches =
  (purgeByAge f w matches ++
   take (length (purgeCandidates f w matches) - Z.to_nat (keepCount f w))
        (purgeCandidates f w matches))%list.
Proof.
  intros Hc. unfold selectPurge, purgeByAge, purgeCandidates, keepCount.
  rewrite <- (protectTarget_snd f w (statAll matches w ∅)).
  destruct (protectTarget f w _) as [stats p]. simpl snd.
  destruct (classify stats _ _ _) as [tp cs]. simpl fst. simpl snd.
  replace (rotationCount f >? 0) with true by (symmetry; apply Z.gtb_lt; exact Hc).
  set (c := if p then rotationCount f - 1 else rotationCount f).
  assert (0 <= c) by (subst c; destruct p; lia).
  destruct (Z.of_nat (length cs) >? c) eqn:Hlc.
  - apply Z.gtb_lt in Hlc. do 2 f_equal. lia.
  - assert (Z.of_nat (length cs) <= c) by (rewrite Z.gtb_ltb in Hlc; apply Z.ltb_ge in Hlc; exact Hlc).
    replace (length cs - Z.to_nat c)%nat with 0%nat by lia.
    rewrite take_0, app_nil_r. reflexivity.
Qed.

(** The count rule: in a purge pass with [rotationCount > 0], let
    [candidates] be the pool that the earlier steps leave (matches only,
    without the lock and staging files and without the text read from the
    link), sorted by name, and [c] the rotation count, less one if the link
    could be read.  The pass keeps the last [min c (len candidates)] candidates,
    which are the lexicographically greatest and none of which is marked,
    and marks for deletion by count exactly the candidates before them;
    without a symlink [c] is the rotation count, so that of more than five
    candidates with [rotationCount = 5] exactly the five greatest are
    kept. *)
Theorem purge_keeps_greatest (f : File) (w : World) (matches : list string) :
  0 < rotationCount f ->
  let candidates := purgeCandidates f w matches in
  let c := keepCount f w in
  let excess := take (length candidates - Z.to_nat c) candidates in
  let kept := drop (length candidates - Z.to_nat c) candidates in
  selectPurge f w matches = (purgeByAge f w matches ++ excess)%list /\
  candidates = (excess ++ kept)%list /\
  length kept = Nat.min (Z.to_nat c) (length candidates) /\
  (forall x y, x ∈ excess -> y ∈ kept -> String.ltb x y = true) /\
  (forall y, y ∈ kept -> y ∉ selectPurge f w matches) /\
  (forall x, x ∈ candidates ->
     x ∈ matches /\ isTemporary x = false /\
     (forall dst, symlink f <> "" -> os_Readlink (symlink f) w = inl dst -> x <> dst)) /\
  (purgeProtected f w = true -> c = rotationCount f - 1) /\
  (symlink f = "" -> c = rotationCount f) /\
  (symlink f = "" -> rotationCount f = 5 -> (5 < length candidates)%nat ->
   length kept = 5%nat).
Proof.
  intros Hc candidates c excess kept.
  assert (Hsplit : candidates = (excess ++ kept)%list)
    by (symmetry; apply take_drop).
  assert (Hlen : length kept = Nat.min (Z.to_nat c) (length candidates))
    by (subst kept; rewrite length_drop; lia).
  assert (Hsorted : StronglySorted (fun a b => String.ltb a b = true) (excess ++ kept))
    by (rewrite <- Hsplit; apply purgeCandidates_ascending).
  assert (Hnosym : symlink f = "" -> c = rotationCount f).
  { intros Hs. subst c. unfold keepCount.
    rewrite (purgeProtected_no_symlink f w Hs). reflexivity. }
  split; [apply selectPurge_split; exact Hc |].
  split; [exact Hsplit |]. split; [exact Hlen |].
  split; [intros x y Hx Hy; exact (StronglySorted_app_1_elem_of _ _ _ x y Hsorted Hx Hy) |].
  split.
  { intros y Hy. rewrite (selectPurge_split f w matches Hc). fold candidates c excess.
    rewrite elem_of_app. intros [Hin | Hin].
    - apply (purgeByAge_not_candidate f w matches y Hin).
      fold candidates. rewrite Hsplit. apply elem_of_app. right. exact Hy.
    - pose proof (StronglySorted_app_1_elem_of _ _ _ y y Hsorted Hin Hy) as Hlt.
      unfold String.ltb in Hlt.
      destruct (String.compare y y) eqn:Hcmp; try discriminate.
      pose proof (String.compare_antisym y y) as Ha. rewrite Hcmp in Ha. discriminate. }
  split; [intros x Hx; apply purgeCandidates_excluded; exact Hx |].
  split; [intros Hp; subst c; unfold keepCount; rewrite Hp; reflexivity |].
  split; [exact Hnosym |].
  intros Hs H5 Hmore. rewrite Hlen, (Hnosym Hs), H5. lia.
Qed.

End Purge.

(** ** Runs of the purge *)

Section PurgeRuns.
Import GoTime Sys Rotating StdLibs Scenario.

(** The theorem at the end of the run of TestRotationCount: of the six log
    files the pass marks the least, and keeps five. *)
Lemma purge_keeps_greatest_witness :
  selectPurge lastFile lastWorld lastMatches
  = (purgeByAge lastFile lastWorld lastMatches ++
     take (length (purgeCandidates lastFile lastWorld lastMatches)
           - Z.to_nat (keepCount lastFile lastWorld))
          (purgeCandidates lastFile lastWorld lastMatches))%list.
Proof.
  refine (proj1 (purge_keeps_greatest lastFile lastWorld lastMatches _)).
  vm_compute. reflexivity.
Defined.

(** What TestRotationCount asserts: once the deletions have run, the five
    greatest names are left in the directory. *)
Example rotationRun_leaves_five :
  names (runPending (snd (fst rotationRun)))
  = ["dir"; "dir/20210101-000005.log.1"; "dir/20210101-000005.log.2";
     "dir/20210101-000005.log.3"; "dir/20210101-000005.log.4";
     "dir/20210101-000005.log.5"].
Proof. vm_compute. reflexivity. Qed.

(** When the text read from the link is no key of the cache, as with the
    relative text that [makeSymlink] writes for a link beside the log
    files, the symlink block takes nothing out and still reports a
    protected file. *)
Lemma protectTarget_misses (f : File) (w : World) (stats : gmap string FileInfo) (dst : string) :
  symlink f <> "" -> os_Readlink (symlink f) w = inl dst -> stats !! dst = None ->
  protectTarget f w stats = (stats, true).
Proof.
  intros Hsym Hread Hdst. unfold protectTarget.
  replace (String.eqb (symlink f) "") with false
    by (symmetry; apply String.eqb_neq; exact Hsym).
  rewrite Hread, delete_id by exact Hdst. reflexivity.
Qed.

(** C6 on the code.  The writer keeps a symlink beside its log files and
    one rotation.  After its first Write the link reads as the bare file
    name, which is none of the paths the glob returned, so the file the
    link points to, the one being written, stays in the pool while the count
    is lowered to zero: the pass marks it, and once the deletion has run the
    directory holds the link and no log file, with the writer's handle still
    open on the path.  With five rotations to keep the same run as
    TestRotationCount leaves four log files.  Without a symlink, seven
    rotations in one time slot leave four log files, the name of the slot
    being opened again by every other rotation. *)
Theorem purge_deletes_link_target :
  (forall f w stats dst,
     symlink f <> "" -> os_Readlink (symlink f) w = inl dst -> stats !! dst = None ->
     protectTarget f w stats = (stats, true)) /\
  snd keepOneRun = [Returns (11, None)] /\
  filename keepOneFile = "dir/20210101-000000.log" /\
  os_Readlink (symlink keepOneFile) keepOneWorld = inl "20210101-000000.log" /\
  rotationCount keepOneFile = 1 /\
  keepCount keepOneFile keepOneWorld = 0 /\
  w_pending keepOneWorld = [ ["dir/20210101-000000.log"] ] /\
  names (runPending keepOneWorld) = ["dir"; "dir/current.log"] /\
  w_handles (runPending keepOneWorld) = [mkHandle "dir/20210101-000000.log" 11 None false] /\
  names (runPending (snd (fst linkedRotation)))
  = ["dir"; "dir/20210101-000005.log.2"; "dir/20210101-000005.log.3";
     "dir/20210101-000005.log.4"; "dir/20210101-000005.log.5"; "dir/current.log"] /\
  length (w_handles (snd (fst (slotRun 6)))) = 7%nat /\
  names (runPending (snd (fst (slotRun 6))))
  = ["dir"; "dir/20210101-000000.log"; "dir/20210101-000000.log.1";
     "dir/20210101-000000.log.2"; "dir/20210101-000000.log.3"].
Proof.
  split; [intros f w stats dst; apply protectTarget_misses |].
  evaluate.
Qed.


End PurgeRuns.

(** ** The writer swap *)

Section Swap.
Import GoTime Sys Rotating StdLibs Scenario.

Lemma bw_Flush_length (h : nat) (w : World) :
  length (w_handles (snd (bw_Flush h w))) = length (w_handles w).
Proof.
  unfold bw_Flush. destruct (w_handles w !! h) as [hd |]; [| reflexivity].
  destruct (h_err hd); [reflexivity |].
  destruct (h_n hd =? 0); [reflexivity |].
  unfold file_Write. destruct (h_closed hd); simpl; rewrite length_insert; reflexivity.
Qed.

Lemma flushWriter_length (h : nat) (w : World) :
  length (w_handles (flushWriter h w)) = length (w_handles w).
Proof.
  unfold flushWriter. pose proof (bw_Flush_length h w) as Hl.
  destruct (bw_Flush h w) as [e w']. exact Hl.
Qed.

(** After [finalizeWriter] the file under the handle is closed. *)
Lemma finalizeWriter_closed (h : nat) (w : World) :
  (h < length (w_handles w))%nat -> isClosed h (finalizeWriter h w) = true.
Proof.
  intros Hh. unfold finalizeWriter, bw_Close, isClosed.
  rewrite <- (flushWriter_length h w) in Hh.
  destruct (lookup_lt_is_Some_2 _ _ Hh) as [hd Hhd]. rewrite Hhd.
  destruct (h_closed hd) eqn:Hc; simpl.
  - rewrite Hhd. exact Hc.
  - rewrite list_lookup_insert_eq by exact Hh. reflexivity.
Qed.

(** C5 on the code: in every swap that replaces a writer [old], the state
    after the first statement of the critical section has [old] closed and
    still installed; the new writer is installed by the statement after
    it. *)
Theorem swap_closes_old_before_install
        (f : File) (w : World) (newF : nat) (newFileName : string) (old : nat) :
  file f = Some old -> (old < length (w_handles w))%nat ->
  exists s1 s2 s3,
    traceSteps (swapSteps newF newFileName) (f, w) = [(f, w); s1; s2; s3] /\
    file (fst s1) = Some old /\ isClosed old (snd s1) = true /\
    file (fst s2) = Some newF /\ snd s2 = snd s1 /\
    s3 = runSteps (swapSteps newF newFileName) (f, w).
Proof.
  intros Hf Hold.
  exists (f, finalizeWriter old w),
         (set_file f (Some newF), finalizeWriter old w),
         (set_filename (set_file f (Some newF)) newFileName, finalizeWriter old w).
  simpl. rewrite Hf. repeat split; try reflexivity.
  apply finalizeWriter_closed. exact Hold.
Qed.

(** The theorem on the second rotation of the size run: handle 0 is closed
    while it is still the writer of the [File]. *)
Lemma swap_closes_old_before_install_witness :
  exists s1 s2 s3,
    traceSteps (swapSteps 1 "dir/20210101-000000.log.1") (swapFile, swapWorld)
    = [(swapFile, swapWorld); s1; s2; s3] /\
    file (fst s1) = Some 0%nat /\ isClosed 0 (snd s1) = true /\
    file (fst s2) = Some 1%nat /\ snd s2 = snd s1 /\
    s3 = runSteps (swapSteps 1 "dir/20210101-000000.log.1") (swapFile, swapWorld).
Proof.
  apply (swap_closes_old_before_install swapFile swapWorld 1
           "dir/20210101-000000.log.1" 0).
  - vm_compute. reflexivity.
  - vm_compute. lia.
Defined.

End Swap.

(** ** Rotation by Write *)

Section Rotation.
Import GoTime Sys Rotating StdLibs Scenario.

(** C1 on the code: the clock has moved into the next slot and the file
    of that slot cannot be opened.  The Write returns the creation error,
    wrapped three times, and keeps the writer and the file name; but
    [baseTime] is already the new slot, so the writer no longer sees an
    interval to rotate for.  When it is the first file that cannot be
    opened, the next Write finds no writer at all. *)
Theorem failed_rotation_advances_baseTime :
  let f := fst (fst beforeFailure) in
  let w := snd (fst beforeFailure) in
  let f' := fst (fst afterFailure) in
  let w' := snd (fst afterFailure) in
  last (snd afterFailure)
  = Some (Returns
            (0, Some (Wrapped
                        (Wrapped
                           (Wrapped
                              (Errorf "failed to open file dir/20210101-000005.log"
                                      (PathError "open" "dir/20210101-000005.log" EACCES))
                              "failed to create file dir/20210101-000005.log")
                           "failed to rotate file")
                        "failed to obtain file handle"))) /\
  file f' = file f /\ filename f' = filename f /\ generation f' = generation f /\
  w_handles w' = w_handles w /\
  baseTime f = newYear2021 /\
  baseTime f' = Add newYear2021 (5 * Second) /\
  pattern f' (baseTime f') <> filename f' /\
  intervalExceeded f' w' = false /\
  snd (write line afterFailure) = (snd afterFailure ++ [Returns (11, None)])%list /\
  last (snd firstFails) = Some Panics.
Proof. evaluate. Qed.

(** C3 on the code: three writes of eleven bytes with the size check due
    in between, all in one slot.  The first rotation goes to the name with
    the suffix [.1]; the second finds that the bare name differs from the
    current one, leaves the generation alone and opens the bare name, the
    file of the first write, again. *)
Theorem size_rotation_reuses_name :
  filename (fst (fst (sizeRun 0))) = "dir/20210101-000000.log" /\
  filename (fst (fst (sizeRun 1))) = "dir/20210101-000000.log.1" /\
  generation (fst (fst (sizeRun 1))) = 1 /\
  filename (fst (fst (sizeRun 2))) = "dir/20210101-000000.log" /\
  generation (fst (fst (sizeRun 2))) = 1 /\
  baseTime (fst (fst (sizeRun 2))) = baseTime (fst (fst (sizeRun 0))) /\
  file (fst (fst (sizeRun 2))) = Some 2%nat /\
  map h_path (w_handles (snd (fst (sizeRun 2))))
  = ["dir/20210101-000000.log"; "dir/20210101-000000.log.1"; "dir/20210101-000000.log"] /\
  snd (sizeRun 2) = [Returns (11, None); Returns (11, None); Returns (11, None)].
Proof. evaluate. Qed.

(** What TestMaxFileSize asserts: two files after two writes. *)
Example sizeRun_two_files :
  names (snd (fst (sizeRun 1)))
  = ["dir"; "dir/20210101-000000.log"; "dir/20210101-000000.log.1"].
Proof. vm_compute. reflexivity. Qed.

End Rotation.

(** ** Close *)

Section Closing.
Import GoTime Sys Rotating StdLibs Scenario.


Lemma bw_Flush_healthy (h : nat) (hd : Handle) (w : World) :
  w_handles w !! h = Some hd -> h_err hd = None -> h_closed hd = false ->
  exists w1, bw_Flush h w = (None, w1) /\
             w_handles w1 = <[h := mkHandle (h_path hd) 0 None false]> (w_handles w).
Proof.
  intros Hhd Herr Hopen. unfold bw_Flush. rewrite Hhd, Herr.
  destruct (h_n hd =? 0) eqn:Hn.
  - exists w. split; [reflexivity |]. apply Z.eqb_eq in Hn.
    symmetry. apply list_insert_id. rewrite Hhd. f_equal.
    destruct hd as [path n err closed]. simpl in *. subst. reflexivity.
  - unfold file_Write. rewrite Hopen. eexists. split; reflexivity.
Qed.

Lemma finalizeWriter_healthy (h : nat) (hd : Handle) (w : World) :
  w_handles w !! h = Some hd -> h_err hd = None -> h_closed hd = false ->
  finalized h (finalizeWriter h w).
Proof.
  intros Hhd Herr Hopen. exists (h_path hd).
  pose proof (lookup_lt_Some _ _ _ Hhd) as Hlt.
  destruct (bw_Flush_healthy h hd w Hhd Herr Hopen) as (w1 & Hflush & Hhs).
  unfold finalizeWriter, flushWriter. rewrite Hflush.
  assert (Hw1 : w_handles w1 !! h = Some (mkHandle (h_path hd) 0 None false))
    by (rewrite Hhs; apply list_lookup_insert_eq; exact Hlt).
  unfold bw_Close. rewrite Hw1. simpl.
  apply list_lookup_insert_eq. rewrite Hhs, length_insert. exact Hlt.
Qed.








(** In that run the check was due: the timer had fired. *)
Example roomyLater_due :
  ready (nextCheck (snd (fst (CloseTimes 1 roomyFile roomyWorld)))) roomyLater = true.
Proof. vm_compute. reflexivity. Qed.


End Closing.

(** ** Construction and the first Write *)

Section Construction.
Import GoTime Sys Rotating.
Context `{Libs}.

(** The handle that [createFile] returns is a new one. *)
Lemma createFile_fresh (name : string) (w w1 : World) (newF : nat) :
  createFile name w = (inl newF, w1) -> newF = length (w_handles w).
Proof.
  unfold createFile.
  assert (Hmk : forall d, w_handles (snd (os_MkdirAll d w)) = w_handles w).
  { intros d. unfold os_MkdirAll. destruct (w_fault w SysMkdirAll d); [reflexivity |].
    destruct (w_files w !! d); reflexivity. }
  assert (Hop : forall w0 r w2, os_OpenAppend name w0 = (r, w2) -> w_handles w2 = w_handles w0).
  { intros w0 r w2. unfold os_OpenAppend. destruct (w_fault w0 SysOpen name).
    - intros [= <- <-]. reflexivity.
    - destruct (w_files w0 !! name); intros [= <- <-]; reflexivity. }
  set (d := filepath_Dir name).
  assert (Hpre : forall e w0,
             (match os_Stat d w with
              | inr err => if IsNotExist err then os_MkdirAll d w else (None, w)
              | inl _ => (None, w)
              end) = (e, w0) -> w_handles w0 = w_handles w).
  { intros e w0. destruct (os_Stat d w) as [fi | err].
    - intros [= <- <-]. reflexivity.
    - destruct (IsNotExist err).
      + intros Hm. rewrite <- (Hmk d), Hm. reflexivity.
      + intros [= <- <-]. reflexivity. }
  destruct (match os_Stat d w with inl _ => _ | inr _ => _ end) as [e w0].
  specialize (Hpre e w0 eq_refl). rename Hpre into Hstat.
  destruct e as [err |]; [discriminate |].
  destruct (os_OpenAppend name w0) as [[u | err] w2] eqn:Hopen; [| discriminate].
  apply Hop in Hopen. unfold newHandle. intros [= <- <-]. congruence.
Qed.

(** Without a writer the size probe answers false and leaves the world
    alone. *)
Lemma sizeExceeded_no_writer (f : File) (w : World) :
  file f = None ->
  sizeExceeded f w
  = (false,
     if ready (nextCheck f) w then set_nextCheck f (Reset (nextCheck f) (checkInterval f) w)
     else f,
     w).
Proof.
  intros Hf. unfold sizeExceeded. destruct (ready (nextCheck f) w); simpl; [| reflexivity].
  rewrite Hf. reflexivity.
Qed.

(** The rotation branch of [getWriter] for a writer that holds no file,
    has not been cancelled and runs the null policy: a writer is returned
    only if it is the handle created by this call. *)
Lemma first_rotation (f : File) (w : World) (name : string) (h : nat) (f2 : File) (w2 : World) :
  file f = None -> cancelled f = false -> backoff f = Null ->
  match rotateFile f w name with
  | (Some err, f, w) => (None, Some (Wrapped err "failed to rotate file"), f, w)
  | (None, f, w) => (file f, None, f, w)
  end = (Some h, None, f2, w2) ->
  h = length (w_handles w) /\ file f2 = Some h /\
  baseTime f2 = baseTime f /\ filename f2 = name.
Proof.
  intros Hf Hc Hb. unfold rotateFile. rewrite Hc, Hb. simpl.
  destruct (createFile name w) as [[newF | err] w1] eqn:Hcreate.
  - apply createFile_fresh in Hcreate. unfold runSteps. simpl. rewrite Hf.
    destruct (makeSymlink _ w1) as [[err |] w3]; [discriminate |].
    destruct (purgeOld _ w3) as [e w4]. simpl.
    intros [= <- <- <-]. subst newF. repeat split; reflexivity.
  - simpl. discriminate.
Qed.

(** The first call of [getWriter] on a writer as [NewFile] leaves it. *)
Lemma first_getWriter (f : File) (w : World) :
  file f = None -> cancelled f = false -> backoff f = Null -> baseTime f = zeroTime ->
  abs (truncate (clock f w) (maxInterval f)) <> 0 ->
  intervalExceeded f w = true /\
  (forall h f2 w2, getWriter f w = (Some h, None, f2, w2) ->
     h = length (w_handles w) /\ file f2 = Some h /\
     baseTime f2 = truncate (clock f w) (maxInterval f) /\
     filename f2 = pattern f (baseTime f2)).
Proof.
  intros Hf Hc Hb Hbase Hne.
  assert (Hi : intervalExceeded f w = true).
  { unfold intervalExceeded, Equal. rewrite Hbase.
    apply negb_true_iff. apply (proj2 (Z.eqb_neq _ _)).
    intros Heq. apply Hne. symmetry. exact Heq. }
  split; [exact Hi |].
  intros h f2 w2. unfold getWriter. rewrite (sizeExceeded_no_writer f w Hf).
  set (g := if ready (nextCheck f) w then _ else f).
  assert (Hg : file g = None /\ cancelled g = false /\ backoff g = Null /\
               clock g = clock f /\ maxInterval g = maxInterval f /\
               pattern g = pattern f /\ baseTime g = baseTime f).
  { subst g. destruct (ready (nextCheck f) w); simpl; tauto. }
  destruct Hg as (Hgf & Hgc & Hgb & Hgk & Hgm & Hgp & Hgt).
  replace (intervalExceeded g w) with true
    by (unfold intervalExceeded in *; rewrite Hgt, Hgk, Hgm; symmetry; exact Hi).
  simpl. intros Hget.
  apply first_rotation in Hget; [| exact Hgf | exact Hgc | exact Hgb].
  simpl in Hget. destruct Hget as (Hh & Hfile & Hbt & Hname).
  rewrite Hgk, Hgm in Hbt. rewrite Hgk, Hgm, Hgp in Hname.
  repeat split; try assumption. rewrite Hbt. exact Hname.
Qed.

(** C10, as the code has it: a [File] that [NewFile] returns holds no
    writer and no file name, its [baseTime] is the zero time, its policy is
    the null policy and its [maxAge] is zero ([NewFile] does not touch the
    world: it reads the runtime clock for its timer and nothing else).  At
    every clock reading whose truncation is not the zero instant the first
    Write sees the interval exceeded, and a writer it gets is the handle
    that this very call created, under the name of the new slot.  The
    truncation is not the zero instant for every reading of a clock in UTC
    or a zone of fixed offset that lies at or after the zero time plus a
    positive [maxInterval], and for every such reading but the zero instant
    when [maxInterval] is not positive. *)
Theorem NewFile_opens_nothing (p : string) (options : list Option) (w : World) (f : File) :
  NewFile p options w = inl f ->
  file f = None /\ filename f = "" /\ baseTime f = zeroTime /\ generation f = 0 /\
  backoff f = Null /\ maxAge f = 0 /\ cancelled f = false /\
  (forall w', abs (truncate (clock f w') (maxInterval f)) <> 0 ->
     intervalExceeded f w' = true /\
     (forall h f2 w2, getWriter f w' = (Some h, None, f2, w2) ->
        h = length (w_handles w') /\ file f2 = Some h /\
        baseTime f2 = truncate (clock f w') (maxInterval f) /\
        filename f2 = pattern f (baseTime f2))) /\
  (forall w', fixed_offset (loc (clock f w')) ->
     0 < maxInterval f <= abs (clock f w') \/
     (maxInterval f <= 0 /\ abs (clock f w') <> 0) ->
     abs (truncate (clock f w') (maxInterval f)) <> 0 /\
     intervalExceeded f w' = true).
Proof.
  unfold NewFile. destruct (strftime_New p) as [pat | err]; [| discriminate].
  intros [= <-]. do 7 (split; [reflexivity |]). split.
  - intros w' Hne. apply first_getWriter; try reflexivity. exact Hne.
  - intros w' Hl Hcase.
    pose proof (truncate_not_zero _ _ Hl Hcase) as Hne.
    split; [exact Hne |].
    match goal with
    | |- intervalExceeded ?g w' = true =>
        exact (proj1 (first_getWriter g w' eq_refl eq_refl eq_refl eq_refl Hne))
    end.
Qed.

End Construction.

Section FirstWrite.
Import GoTime Sys Rotating StdLibs Scenario.

(** The theorem on the writer of TestMaxInterval: nothing open before the
    first Write, which finds the interval exceeded at the clock's reading,
    2021-01-01T00:00:00Z. *)
Lemma NewFile_opens_nothing_witness :
  file (fst (fst (open intervalOptions world0))) = None /\
  intervalExceeded (fst (fst (open intervalOptions world0))) world0 = true.
Proof.
  split.
  - apply (NewFile_opens_nothing logPattern intervalOptions world0
             (fst (fst (open intervalOptions world0)))).
    reflexivity.
  - refine (proj2 (proj2 (proj2 (proj2 (proj2 (proj2 (proj2 (proj2 (proj2
              (NewFile_opens_nothing logPattern intervalOptions world0
                 (fst (fst (open intervalOptions world0))) _))))))))
              world0 _ _)).
    + reflexivity.
    + left. reflexivity.
    + left. vm_compute. split; [reflexivity | discriminate].
Defined.

(** What TestMaxInterval asserts: the two files and the link, which
    points to the second. *)
Example intervalRun_files :
  let w := snd (fst (close
             (write line
                (pass (advance (6 * Second))
                   (write line
                      (open [WithClock fakeClock; WithMaxInterval (5 * Second);
                             WithSymlink "dir/max-interval.log"] world0)))))) in
  names w = ["dir"; "dir/20210101-000000.log"; "dir/20210101-000005.log";
             "dir/max-interval.log"] /\
  w_links w !! "dir/max-interval.log" = Some "20210101-000005.log".
Proof. evaluate. Qed.

(** C10 as stated fails at a clock that reads the zero time: its
    truncation is the initial [baseTime], the first Write triggers no
    rotation, creates no file, and calls Write on the absent writer. *)
Lemma first_write_at_zero_time :
  intervalExceeded (fst (fst (open intervalOptions (set_fake zeroTime world0))))
                   (set_fake zeroTime world0) = false /\
  file (fst (fst zeroClockRun)) = None /\
  names (snd (fst zeroClockRun)) = ["dir"] /\
  snd zeroClockRun = [Panics].
Proof. evaluate. Qed.

End FirstWrite.

(** * Further properties *)

(** ** truncate in zones of fixed offset *)

Section TruncateSlots.
Import GoTime Sys Rotating Scenario.

(** X1: in UTC and in every zone of fixed offset, an interval that is not
    positive makes [truncate] return its argument. *)
Theorem truncate_nonpositive_interval (t : Time) (i : Z) :
  fixed_offset (loc t) -> i <= 0 -> truncate t i = t.
Proof.
  intros Hl Hi. rewrite (truncate_fixed t i Hl).
  replace (i <=? 0) with true by (symmetry; apply Z.leb_le; exact Hi). reflexivity.
Qed.

Lemma truncate_nonpositive_interval_witness :
  truncate newYear2021 0 = newYear2021.
Proof.
  apply (truncate_nonpositive_interval newYear2021 0).
  - left. reflexivity.
  - lia.
Defined.

(** X2: in UTC and in every zone of fixed offset, truncating twice is
    truncating once. *)
Theorem truncate_idempotent (t : Time) (i : Z) :
  fixed_offset (loc t) -> truncate (truncate t i) i = truncate t i.
Proof.
  intros Hl. rewrite (truncate_fixed t i Hl).
  destruct (i <=? 0) eqn:Hi.
  - rewrite (truncate_fixed t i Hl), Hi. reflexivity.
  - rewrite truncate_fixed by exact Hl. rewrite Hi. simpl abs. simpl loc.
    destruct t as [a l]. simpl in *.
    destruct (civil_fixed a l Hl) as [k Hk]. rewrite !Hk.
    f_equal. apply Z.leb_gt in Hi.
    replace (a - (a + k) mod i + k) with ((a + k) - (a + k) mod i) by lia.
    pose proof (Z.div_mod (a + k) i).
    replace ((a + k) - (a + k) mod i) with ((a + k) / i * i) by lia.
    rewrite Z.mod_mul by lia. lia.
Qed.

Lemma truncate_idempotent_witness :
  truncate (truncate (Add newYear2021 (90 * Minute)) Hour) Hour
  = truncate (Add newYear2021 (90 * Minute)) Hour.
Proof.
  apply (truncate_idempotent (Add newYear2021 (90 * Minute)) Hour).
  left. reflexivity.
Defined.

(** The slot of a time: where it starts, and what truncates to it. *)
Lemma truncate_in_slot (t : Time) (i : Z) :
  fixed_offset (loc t) -> 0 < i ->
  abs (truncate t i) <= abs t < abs (truncate t i) + i /\
  (forall u, loc u = loc t ->
             abs (truncate t i) <= abs u < abs (truncate t i) + i ->
             truncate u i = truncate t i).
Proof.
  intros Hl Hi.
  assert (Hnle : (i <=? 0) = false) by (apply Z.leb_gt; exact Hi).
  rewrite (truncate_fixed t i Hl), Hnle. simpl abs.
  pose proof (Z.mod_pos_bound (civil t) i Hi) as Hmod.
  split; [lia |].
  intros u Hu Hin. rewrite truncate_fixed by (rewrite Hu; exact Hl).
  rewrite Hnle, Hu. f_equal.
  destruct t as [a l]. destruct u as [b l']. simpl in *. subst l'.
  destruct (civil_fixed a l Hl) as [k Hk]. rewrite !Hk in *.
  assert (Hq : (b + k) / i = (a + k) / i).
  { pose proof (Z.div_mod (a + k) i).
    symmetry.
    apply (Z.div_unique_pos (b + k) i ((a + k) / i) (b + k - i * ((a + k) / i))); lia. }
  pose proof (Z.div_mod (a + k) i). pose proof (Z.div_mod (b + k) i).
  rewrite Hq in *. lia.
Qed.

(** X3: in UTC and in every zone of fixed offset, for a positive interval,
    a time lies in the slot that starts at its truncation and lasts one
    interval, and every time of that slot and zone truncates to the same
    start. *)
Theorem truncate_slot (t : Time) (i : Z) :
  fixed_offset (loc t) -> 0 < i ->
  abs (truncate t i) <= abs t < abs (truncate t i) + i /\
  (forall u, loc u = loc t ->
             abs (truncate t i) <= abs u < abs (truncate t i) + i ->
             truncate u i = truncate t i).
Proof.
  intros Hl Hi. exact (truncate_in_slot t i Hl Hi).
Qed.

Lemma truncate_slot_witness :
  abs (truncate (Add newYear2021 (90 * Minute)) Hour) <= abs (Add newYear2021 (90 * Minute))
  < abs (truncate (Add newYear2021 (90 * Minute)) Hour) + Hour.
Proof.
  refine (proj1 (truncate_slot (Add newYear2021 (90 * Minute)) Hour _ _)).
  - left. reflexivity.
  - reflexivity.
Defined.

(** X4: when [baseTime] is the start of a slot of a positive
    [maxInterval] in UTC or a zone of fixed offset, and the clock reads in
    that zone, [intervalExceeded] answers false exactly while the reading is
    in the slot, from [baseTime] up to but not including [baseTime] plus
    [maxInterval]. *)
Theorem intervalExceeded_slot (f : File) (w : World) (t0 : Time) :
  fixed_offset (loc t0) -> 0 < maxInterval f ->
  baseTime f = truncate t0 (maxInterval f) ->
  loc (clock f w) = loc t0 ->
  (intervalExceeded f w = false <->
   abs (baseTime f) <= abs (clock f w) < abs (baseTime f) + maxInterval f).
Proof.
  intros Hl Hi Hbase Hloc. unfold intervalExceeded, Equal.
  rewrite negb_false_iff, Z.eqb_eq, Hbase.
  destruct (truncate_in_slot t0 (maxInterval f) Hl Hi) as [_ Hslot].
  assert (Hlnow : fixed_offset (loc (clock f w))) by (rewrite Hloc; exact Hl).
  destruct (truncate_in_slot (clock f w) (maxInterval f) Hlnow Hi) as [Hnow _].
  split.
  - intros Heq. rewrite Heq. exact Hnow.
  - intros Hin. rewrite (Hslot (clock f w) Hloc Hin). reflexivity.
Qed.

Lemma intervalExceeded_slot_witness :
  intervalExceeded (fst (fst writtenOnce)) (snd (fst writtenOnce)) = false <->
  abs (baseTime (fst (fst writtenOnce))) <= abs (clock (fst (fst writtenOnce)) (snd (fst writtenOnce)))
  < abs (baseTime (fst (fst writtenOnce))) + maxInterval (fst (fst writtenOnce)).
Proof.
  apply (intervalExceeded_slot (fst (fst writtenOnce)) (snd (fst writtenOnce)) newYear2021).
  - left. reflexivity.
  - vm_compute. reflexivity.
  - vm_compute. reflexivity.
  - vm_compute. reflexivity.
Defined.

End TruncateSlots.

(** ** NewFile *)

Section NewFileMore.
Import GoTime Sys Rotating.
Context `{Libs}.

Lemma length_append_star (s : string) :
  String.length (s +:+ "*") = S (String.length s).
Proof. induction s as [| c s IH]; simpl; [reflexivity | rewrite IH; reflexivity]. Qed.

Lemma substring_last_star (s : string) :
  String.substring (String.length s) 1 (s +:+ "*") = "*".
Proof. induction s as [| c s IH]; simpl; [reflexivity | exact IH]. Qed.

Lemma HasSuffix_append_star (s : string) : HasSuffix (s +:+ "*") "*" = true.
Proof.
  unfold HasSuffix. rewrite length_append_star.
  change (String.length "*") with 1%nat.
  replace (S (String.length s) - 1)%nat with (String.length s) by lia.
  rewrite substring_last_star. reflexivity.
Qed.

(** X5: the glob pattern of a [File] that [NewFile] returns ends in a
    star, so that the suffixes of later generations are matched too. *)
Theorem NewFile_glob_ends_in_star (p : string) (options : list Option) (w : World) (f : File) :
  NewFile p options w = inl f -> HasSuffix (globPattern f) "*" = true.
Proof.
  unfold NewFile. destruct (strftime_New p) as [pat | err]; [| discriminate].
  intros [= <-]. simpl.
  destruct (HasSuffix (collapseStars (replaceVerbs p)) "*") eqn:Hs;
    [exact Hs | apply HasSuffix_append_star].
Qed.

(** X6: the timer of a [File] that [NewFile] returns follows its check
    interval: a size limit comes with a positive check interval (five
    minutes unless one is given), a positive check interval with a timer
    armed one interval after construction, and any other with a timer that
    never fires. *)
Theorem NewFile_timer (p : string) (options : list Option) (w : World) (f : File) :
  NewFile p options w = inl f ->
  (0 < maxFileSize f -> 0 < checkInterval f) /\
  (0 < checkInterval f -> nextCheck f = Armed (w_mono w + checkInterval f)) /\
  (checkInterval f <= 0 -> nextCheck f = Stopped /\ maxFileSize f <= 0).
Proof.
  unfold NewFile. destruct (strftime_New p) as [pat | err]; [| discriminate].
  intros [= <-]. cbn [maxFileSize checkInterval nextCheck].
  set (s := fold_left applyOption options _).
  set (ci := if (s_maxFileSize s >? 0) && (s_checkInterval s <=? 0)
             then defaultCheckInterval else s_checkInterval s).
  assert (Hdefault : 0 < defaultCheckInterval) by reflexivity.
  assert (Hci : 0 < s_maxFileSize s -> 0 < ci).
  { intros Hm. subst ci.
    replace (s_maxFileSize s >? 0) with true by (symmetry; apply Z.gtb_lt; exact Hm).
    destruct (s_checkInterval s <=? 0) eqn:Hc; simpl; [exact Hdefault |].
    apply Z.leb_gt in Hc. exact Hc. }
  unfold NewTimer. destruct (ci >? 0) eqn:Hpos; rewrite Z.gtb_ltb in Hpos.
  - apply Z.ltb_lt in Hpos. repeat split; try tauto; intros; lia.
  - apply Z.ltb_ge in Hpos. repeat split; try tauto; intros; lia.
Qed.

(** X7: of the options handed to [NewFile] the last one decides: its
    value is the value of its field, except that a check interval that is
    not positive gives way to the default when a size limit is set. *)
Theorem NewFile_last_option (p : string) (options : list Option) (o : Option)
        (w : World) (f : File) :
  NewFile p (options ++ [o]) w = inl f ->
  match o with
  | WithClock c => clock f = c
  | WithMaxInterval v => maxInterval f = v
  | WithMaxFileSize v => maxFileSize f = v
  | WithSymlink v => symlink f = v
  | WithRotationCount v => rotationCount f = v
  | WithCheckInterval v =>
      checkInterval f
      = if (maxFileSize f >? 0) && (v <=? 0) then defaultCheckInterval else v
  end.
Proof.
  unfold NewFile. destruct (strftime_New p) as [pat | err]; [| discriminate].
  intros [= <-]. rewrite fold_left_app. simpl. destruct o; reflexivity.
Qed.

(** X8: a field for which the list holds no option keeps its default: the
    local clock, one hour, no size limit, no symlink, no rotation count. *)
Theorem NewFile_defaults (p : string) (options : list Option) (w : World) (f : File) :
  NewFile p options w = inl f ->
  (Forall (fun o => match o with WithClock _ => False | _ => True end) options ->
   clock f = ClockLocal) /\
  (Forall (fun o => match o with WithMaxInterval _ => False | _ => True end) options ->
   maxInterval f = Hour) /\
  (Forall (fun o => match o with WithMaxFileSize _ => False | _ => True end) options ->
   maxFileSize f = 0) /\
  (Forall (fun o => match o with WithSymlink _ => False | _ => True end) options ->
   symlink f = "") /\
  (Forall (fun o => match o with WithRotationCount _ => False | _ => True end) options ->
   rotationCount f = 0).
Proof.
  unfold NewFile. destruct (strftime_New p) as [pat | err]; [| discriminate].
  intros [= <-]. simpl.
  assert (Hgen : forall s,
    (Forall (fun o => match o with WithClock _ => False | _ => True end) options ->
     s_clock (fold_left applyOption options s) = s_clock s) /\
    (Forall (fun o => match o with WithMaxInterval _ => False | _ => True end) options ->
     s_maxInterval (fold_left applyOption options s) = s_maxInterval s) /\
    (Forall (fun o => match o with WithMaxFileSize _ => False | _ => True end) options ->
     s_maxFileSize (fold_left applyOption options s) = s_maxFileSize s) /\
    (Forall (fun o => match o with WithSymlink _ => False | _ => True end) options ->
     s_symlink (fold_left applyOption options s) = s_symlink s) /\
    (Forall (fun o => match o with WithRotationCount _ => False | _ => True end) options ->
     s_rotationCount (fold_left applyOption options s) = s_rotationCount s)).
  { induction options as [| o rest IH]; intros s; simpl; [repeat split; reflexivity |].
    destruct (IH (applyOption s o)) as (I1 & I2 & I3 & I4 & I5).
    repeat split; intros Hall; apply Forall_cons in Hall as [Ho Hall];
      [rewrite (I1 Hall) | rewrite (I2 Hall) | rewrite (I3 Hall) | rewrite (I4 Hall)
       | rewrite (I5 Hall)];
      destruct o; try contradiction; reflexivity. }
  exact (Hgen (mkSettings ClockLocal 0 Hour 0 "" 0)).
Qed.

End NewFileMore.

Section NewFileRuns.
Import GoTime Sys Rotating StdLibs Scenario.

Lemma NewFile_glob_ends_in_star_witness :
  HasSuffix (globPattern (fst (fst (open intervalOptions world0)))) "*" = true.
Proof.
  apply (NewFile_glob_ends_in_star logPattern intervalOptions world0
           (fst (fst (open intervalOptions world0)))).
  reflexivity.
Defined.

Lemma NewFile_timer_witness :
  0 < checkInterval (fst (fst (open sizeOptions world0))).
Proof.
  refine (proj1 (NewFile_timer logPattern sizeOptions world0
                   (fst (fst (open sizeOptions world0))) _) _).
  - reflexivity.
  - vm_compute. reflexivity.
Defined.

Lemma NewFile_last_option_witness :
  maxInterval (fst (fst (open intervalOptions world0))) = 5 * Second.
Proof.
  apply (NewFile_last_option logPattern [WithClock fakeClock] (WithMaxInterval (5 * Second))
           world0 (fst (fst (open intervalOptions world0)))).
  reflexivity.
Defined.

Lemma NewFile_defaults_witness :
  maxFileSize (fst (fst (open intervalOptions world0))) = 0.
Proof.
  refine (proj1 (proj2 (proj2 (NewFile_defaults logPattern intervalOptions world0
                                 (fst (fst (open intervalOptions world0))) _))) _).
  - reflexivity.
  - repeat constructor.
Defined.

(** The glob pattern of the runs. *)
Example logPattern_glob :
  globPattern (fst (fst (open intervalOptions world0))) = "dir/*-*.log*".
Proof. vm_compute. reflexivity. Qed.

End NewFileRuns.

(** ** The throttle of the size probe *)

Section Throttle.
Import GoTime Sys Rotating Scenario.

(** What the probe leaves of the [File]: the timer is reset when it had
    fired, and nothing else changes. *)
Lemma sizeExceeded_file (f : File) (w : World) :
  snd (fst (sizeExceeded f w))
  = if ready (nextCheck f) w then set_nextCheck f (Reset (nextCheck f) (checkInterval f) w)
    else f.
Proof.
  unfold sizeExceeded. destruct (ready (nextCheck f) w); simpl; [| reflexivity].
  destruct (file f) as [h |]; [| reflexivity].
  destruct (os_Stat _ _); reflexivity.
Qed.

(** X9: with a positive check interval, once the probe has found its
    timer fired, every call before one check interval has gone by on the
    runtime clock answers false and changes nothing: no flush, no stat, no
    reset. *)
Theorem sizeExceeded_throttled (f : File) (w w2 : World) :
  0 < checkInterval f -> ready (nextCheck f) w = true ->
  w_mono w2 < w_mono w + checkInterval f ->
  sizeExceeded (snd (fst (sizeExceeded f w))) w2
  = (false, snd (fst (sizeExceeded f w)), w2).
Proof.
  intros Hci Hready Hsoon. rewrite sizeExceeded_file, Hready.
  apply sizeExceeded_not_due. simpl. apply Z.leb_gt. exact Hsoon.
Qed.

Lemma sizeExceeded_throttled_witness :
  sizeExceeded (snd (fst (sizeExceeded removedFile removedWorld))) removedWorld
  = (false, snd (fst (sizeExceeded removedFile removedWorld)), removedWorld).
Proof.
  apply (sizeExceeded_throttled removedFile removedWorld removedWorld).
  - vm_compute. reflexivity.
  - vm_compute. reflexivity.
  - vm_compute. reflexivity.
Defined.

(** X10: the probe flushes before it stats, so the size it compares with
    the limit counts the bytes that were still in the buffer: for a writer
    in good order on the current file name, holding [n] buffered bytes over
    a file of [s] bytes, a due probe answers whether the limit is not
    negative and [s + n] has reached it. *)
Theorem sizeExceeded_counts_buffered
        (f : File) (w : World) (h : nat) (hd : Handle) (fi : FileInfo) :
  ready (nextCheck f) w = true -> file f = Some h ->
  w_handles w !! h = Some hd -> h_err hd = None -> h_closed hd = false ->
  h_path hd = filename f ->
  w_fault w SysStat (filename f) = None ->
  w_files w !! filename f = Some fi ->
  fst (fst (sizeExceeded f w))
  = (maxFileSize f >=? 0) && (Size fi + h_n hd >=? maxFileSize f).
Proof.
  intros Hready Hf Hhd Herr Hopen Hpath Hfault Hfi.
  rewrite (sizeExceeded_due f w h Hready Hf).
  unfold flushWriter, bw_Flush. rewrite Hhd, Herr.
  destruct (h_n hd =? 0) eqn:Hn.
  - apply Z.eqb_eq in Hn. unfold os_Stat. rewrite Hfault, Hfi, Hn, Z.add_0_r. reflexivity.
  - unfold file_Write. rewrite Hopen. unfold os_Stat. simpl. rewrite Hfault, Hpath.
    rewrite lookup_alter_eq, Hfi. reflexivity.
Qed.

Lemma sizeExceeded_counts_buffered_witness :
  fst (fst (sizeExceeded (fst (fst (pass (sleep (200 * Millisecond)) (sizeRun 0))))
                         (snd (fst (pass (sleep (200 * Millisecond)) (sizeRun 0))))))
  = (10 >=? 0) && (0 + 11 >=? 10).
Proof.
  apply (sizeExceeded_counts_buffered
           (fst (fst (pass (sleep (200 * Millisecond)) (sizeRun 0))))
           (snd (fst (pass (sleep (200 * Millisecond)) (sizeRun 0))))
           0%nat (mkHandle "dir/20210101-000000.log" 11 None false)
           (mkFileInfo 0 newYear2021 Regular));
    vm_compute; reflexivity.
Defined.

End Throttle.

(** ** createFile *)

Section CreateFile.
Import GoTime Sys Rotating.
Context `{Libs}.

(** The directory step of [createFile] and of [publishSymlink]: stat, and
    [MkdirAll] when the directory is reported missing. *)
Lemma ensureDir_spec (d : string) (w : World) (e : option error) (w0 : World) :
  (match os_Stat d w with
   | inr err => if IsNotExist err then os_MkdirAll d w else (None, w)
   | inl _ => (None, w)
   end) = (e, w0) ->
  w_handles w0 = w_handles w /\ w_links w0 = w_links w /\ w_fault w0 = w_fault w /\
  w_pending w0 = w_pending w /\ w_mono w0 = w_mono w /\
  (forall x fi, w_files w !! x = Some fi -> w_files w0 !! x = Some fi) /\
  (forall x, x <> d -> w_files w0 !! x = w_files w !! x) /\
  (is_Some e -> w0 = w) /\
  (e = None -> os_Stat d w = inr (PathError "stat" d ENOENT) -> is_Some (w_files w0 !! d)).
Proof.
  destruct (os_Stat d w) as [fi | err] eqn:Hstat.
  - intros [= <- <-].
    repeat split; auto; try discriminate; try (intros [? ?]; discriminate).
  - destruct (IsNotExist err) eqn:Hne.
    + unfold os_MkdirAll. destruct (w_fault w SysMkdirAll d) as [e' |].
      * intros [= <- <-].
        repeat split; auto; try discriminate; try (intros [? ?]; discriminate).
      * destruct (w_files w !! d) as [fi |] eqn:Hd.
        -- intros [= <- <-].
           repeat split; auto; try discriminate; try (intros [? ?]; discriminate).
           all: try (intros _ _; rewrite Hd; eauto).
        -- intros [= <- <-]. simpl.
           repeat split; auto; try discriminate; try (intros [? ?]; discriminate).
           all: try (intros x fi Hx; rewrite lookup_insert_ne by congruence; exact Hx).
           all: try (intros x Hx; rewrite lookup_insert_ne by congruence; reflexivity).
           all: try (intros _ _; rewrite lookup_insert_eq; eauto).
    + intros [= <- <-].
      repeat split; auto; try discriminate; try (intros [? ?]; discriminate).
      all: try (intros _ [= ->]; discriminate).
Qed.

Lemma os_OpenAppend_spec (name : string) (w : World) (r : result unit) (w1 : World) :
  os_OpenAppend name w = (r, w1) ->
  w_handles w1 = w_handles w /\ w_links w1 = w_links w /\ w_fault w1 = w_fault w /\
  w_pending w1 = w_pending w /\ w_mono w1 = w_mono w /\
  (forall x fi, w_files w !! x = Some fi -> w_files w1 !! x = Some fi) /\
  (forall x, x <> name -> w_files w1 !! x = w_files w !! x) /\
  match r with
  | inl _ => is_Some (w_files w1 !! name)
  | inr err => w1 = w /\ exists e, w_fault w SysOpen name = Some e /\ err = PathError "open" name e
  end.
Proof.
  unfold os_OpenAppend. destruct (w_fault w SysOpen name) as [e |] eqn:Hflt.
  - intros [= <- <-]. repeat split; eauto.
  - destruct (w_files w !! name) as [fi |] eqn:Hn.
    + intros [= <- <-]. repeat split; eauto.
    + intros [= <- <-]. simpl. repeat split; auto.
      all: try (intros x fi Hx; rewrite lookup_insert_ne by congruence; exact Hx).
      all: try (intros x Hx; rewrite lookup_insert_ne by congruence; reflexivity).
      all: try (rewrite lookup_insert_eq; eauto).
Qed.

(** What [createFile] does to the world, by result. *)
Lemma createFile_spec (name : string) (w : World) (r : result nat) (w1 : World) :
  createFile name w = (r, w1) ->
  (forall x fi, w_files w !! x = Some fi -> w_files w1 !! x = Some fi) /\
  w_links w1 = w_links w /\ w_pending w1 = w_pending w /\
  match r with
  | inl h =>
      h = length (w_handles w) /\
      w_handles w1 = (w_handles w ++ [mkHandle name 0 None false])%list /\
      is_Some (w_files w1 !! name)
  | inr err =>
      w_handles w1 = w_handles w /\
      ((exists e, err = Wrapped e ("failed to create directory " +:+ filepath_Dir name)) \/
       (exists e, err = Errorf ("failed to open file " +:+ name) e))
  end.
Proof.
  unfold createFile.
  destruct (match os_Stat (filepath_Dir name) w with inl _ => _ | inr _ => _ end)
    as [e w0] eqn:Hdir.
  apply ensureDir_spec in Hdir as (Hh & Hl & Hf & Hp & Hm & Hkeep & _ & Hsame & _).
  destruct e as [err |].
  - intros [= <- <-]. rewrite (Hsame ltac:(eauto)). repeat split; eauto.
  - destruct (os_OpenAppend name w0) as [[u | err] w2] eqn:Hopen;
      apply os_OpenAppend_spec in Hopen as (Hh2 & Hl2 & Hf2 & Hp2 & Hm2 & Hkeep2 & _ & Hr).
    + unfold newHandle. intros [= <- <-]. simpl.
      repeat split; auto; try congruence.
    + destruct Hr as [-> _]. intros [= <- <-]. repeat split; eauto; congruence.
Qed.

(** X11: [createFile] opens for appending and only adds to the file
    system: every entry that was there is there unchanged afterwards, so an
    existing file is never truncated.  On success the file exists and the
    handle returned is a new one with an empty buffer on that path; on
    failure no handle is allocated, and the error says whether the
    directory or the file could not be made. *)
Theorem createFile_only_adds (name : string) (w : World) (r : result nat) (w1 : World) :
  createFile name w = (r, w1) ->
  (forall x fi, w_files w !! x = Some fi -> w_files w1 !! x = Some fi) /\
  w_links w1 = w_links w /\ w_pending w1 = w_pending w /\
  match r with
  | inl h =>
      h = length (w_handles w) /\
      w_handles w1 = (w_handles w ++ [mkHandle name 0 None false])%list /\
      is_Some (w_files w1 !! name)
  | inr err =>
      w_handles w1 = w_handles w /\
      ((exists e, err = Wrapped e ("failed to create directory " +:+ filepath_Dir name)) \/
       (exists e, err = Errorf ("failed to open file " +:+ name) e))
  end.
Proof.
  intros Hcreate. exact (createFile_spec name w r w1 Hcreate).
Qed.

(** A creation that failed fails again in the world it left, with the same
    error, and leaves that world as it is. *)
Lemma createFile_fails_again (name : string) (w : World) (err : error) (w1 : World) :
  createFile name w = (inr err, w1) -> createFile name w1 = (inr err, w1).
Proof.
  unfold createFile. set (d := filepath_Dir name).
  destruct (match os_Stat d w with inl _ => _ | inr _ => _ end) as [e w0] eqn:Hdir.
  destruct e as [e |].
  - pose proof (ensureDir_spec d w _ _ Hdir) as (_ & _ & _ & _ & _ & _ & _ & Hsame & _).
    rewrite (Hsame ltac:(eauto)) in *. intros [= <- <-]. rewrite Hdir. reflexivity.
  - destruct (os_OpenAppend name w0) as [[u | oerr] w2] eqn:Hopen; [discriminate |].
    pose proof (os_OpenAppend_spec name w0 _ _ Hopen) as (_ & _ & _ & _ & _ & _ & _ & Hr).
    destruct Hr as [-> _]. intros [= <- <-].
    assert (Hagain : (match os_Stat d w0 with
                      | inr err => if IsNotExist err then os_MkdirAll d w0 else (None, w0)
                      | inl _ => (None, w0)
                      end) = (None, w0)).
    { revert Hdir. unfold os_Stat, os_MkdirAll.
      destruct (w_fault w SysStat d) as [se |] eqn:Hsf.
      - destruct (IsNotExist (PathError "stat" d se)) eqn:Hne.
        + destruct (w_fault w SysMkdirAll d) as [me |] eqn:Hmf; [discriminate |].
          destruct (w_files w !! d) as [fi |] eqn:Hd.
          * intros [= <-]. rewrite Hsf, Hne, Hmf, Hd. reflexivity.
          * intros [= <-]. simpl. rewrite Hsf, Hne, Hmf, lookup_insert_eq. reflexivity.
        + intros [= <-]. rewrite Hsf, Hne. reflexivity.
      - destruct (w_files w !! d) as [fi |] eqn:Hd.
        + intros [= <-]. rewrite Hsf, Hd. reflexivity.
        + simpl. destruct (w_fault w SysMkdirAll d) as [me |] eqn:Hmf; [discriminate |].
          intros [= <-]. simpl. rewrite Hsf, lookup_insert_eq. reflexivity. }
    rewrite Hagain, Hopen. reflexivity.
Qed.

End CreateFile.

(** ** makeSymlink *)

Section MakeSymlink.
Import GoTime Sys Rotating.
Context `{Libs}.

Lemma publishSymlink_handles (f : File) (w : World) :
  w_handles (snd (publishSymlink f w)) = w_handles w /\
  w_pending (snd (publishSymlink f w)) = w_pending w.
Proof.
  unfold publishSymlink.
  destruct (if Contains _ _ then _ else _) as [dst | e]; [| split; reflexivity].
  destruct (match os_Stat _ w with inl _ => _ | inr _ => _ end) as [e w0] eqn:Hdir.
  apply ensureDir_spec in Hdir as (Hh & _ & _ & Hp & _).
  destruct e as [err |]; [simpl; split; assumption |].
  unfold os_Symlink. destruct (w_fault w0 SysSymlink _); [simpl; split; assumption |].
  destruct (w_files w0 !! _); [simpl; split; assumption |].
  unfold os_Rename. simpl.
  destruct (w_fault w0 SysRename _); [simpl; split; assumption |].
  destruct (_ !! _); simpl; split; assumption.
Qed.

(** [makeSymlink] touches neither the writer handles nor the deletions
    that wait. *)
Lemma makeSymlink_handles (f : File) (w : World) :
  w_handles (snd (makeSymlink f w)) = w_handles w /\
  w_pending (snd (makeSymlink f w)) = w_pending w.
Proof.
  unfold makeSymlink. destruct (String.eqb (symlink f) ""); [split; reflexivity |].
  unfold os_OpenExcl. destruct (w_fault w SysOpenExcl _); [split; reflexivity |].
  destruct (w_files w !! _); [split; reflexivity |].
  match goal with |- context [publishSymlink f ?w1] =>
    pose proof (publishSymlink_handles f w1) as [Hh Hp];
    destruct (publishSymlink f w1) as [e w2]
  end.
  simpl in *. split; assumption.
Qed.

(** X12: with a symlink configured, [makeSymlink] either fails to take the
    lock file, and then reports that and leaves the world as it was (a lock
    file that was there stays), or it has held the lock and removes the lock
    file before it returns, whether the link was published or not: the
    removal having gone through (the deferred call drops the error of
    [os.Remove], and the model has none), the lock file is gone. *)
Theorem makeSymlink_releases_lock (f : File) (w : World) (e : option error) (w' : World) :
  symlink f <> "" -> makeSymlink f w = (e, w') ->
  ((exists err, e = Some (Wrapped err "failed to open lockfile")) /\ w' = w) \/
  (w_files w !! (filename f +:+ "_lock") = None /\
   w_files w' !! (filename f +:+ "_lock") = None).
Proof.
  intros Hsym. unfold makeSymlink.
  replace (String.eqb (symlink f) "") with false
    by (symmetry; apply String.eqb_neq; exact Hsym).
  unfold os_OpenExcl. destruct (w_fault w SysOpenExcl _).
  - intros [= <- <-]. left. eauto.
  - destruct (w_files w !! _) eqn:Hlock.
    + intros [= <- <-]. left. eauto.
    + destruct (publishSymlink f _) as [e1 w1]. intros [= <- <-].
      right. split; [reflexivity |]. simpl. apply lookup_delete_eq.
Qed.


End MakeSymlink.

(** ** rotateFile *)

Section RotateFile.
Import GoTime Sys Rotating.
Context `{Libs}.

(** [purgeOld] changes nothing but the list of deletions that wait. *)
Lemma purgeOld_world (f : File) (w : World) :
  w_handles (snd (purgeOld f w)) = w_handles w /\
  w_files (snd (purgeOld f w)) = w_files w /\
  w_links (snd (purgeOld f w)) = w_links w.
Proof.
  unfold purgeOld. destruct (filepath_Glob _ _) as [matches | err]; [| repeat split].
  destruct (0 <? length _)%nat; repeat split.
Qed.

(** What [rotateFile] leaves of the [File]: as it was, with no handle
    allocated, when no file could be created; the new handle and the new
    name otherwise, and then the only error there can be is the one of the
    symlink. *)
Lemma rotateLoop_cases (n : nat) (name : string) :
  forall (lastError : option error) (f : File) (w : World)
         (e : option error) (f2 : File) (w2 : World),
    rotateLoop n name lastError f w = (e, f2, w2) ->
    (f2 = f /\ w_handles w2 = w_handles w /\
     exists last, e = Wrap last ("failed to create file " +:+ name) /\
                  (n = O -> last = lastError) /\ (n <> O -> is_Some last)) \/
    (f2 = set_filename (set_file f (Some (length (w_handles w)))) name /\
     (e = None \/ exists err, e = Some (Wrapped err "failed to create symlink"))).
Proof.
  induction n as [| n IH]; intros lastError f w e f2 w2; simpl.
  - intros [= <- <- <-]. left. split; [reflexivity |]. split; [reflexivity |].
    exists lastError. split; [reflexivity |]. split; [reflexivity | congruence].
  - destruct (createFile name w) as [[newF | err] w1] eqn:Hcreate.
    + apply createFile_spec in Hcreate as (_ & _ & _ & Hnew & _).
      unfold runSteps. simpl.
      destruct (makeSymlink _ _) as [[serr |] w3].
      * intros [= <- <- <-]. right. subst newF. split; [reflexivity | eauto].
      * destruct (purgeOld _ w3) as [pe w4]. intros [= <- <- <-].
        right. subst newF. split; [reflexivity | auto].
    + apply createFile_spec in Hcreate as (_ & _ & _ & Hh & _).
      intros Hloop. apply IH in Hloop as [(Hf & Hhs & last & He & H0 & Hn) | [Hf Herr]].
      * left. split; [exact Hf |]. split; [congruence |].
        exists last. split; [exact He |]. split; [discriminate |].
        intros _. destruct n as [| n']; [rewrite H0 by reflexivity; eauto | apply Hn; discriminate].
      * right. rewrite Hh in Hf. split; assumption.
Qed.

(** X14: when the retry policy grants no attempt, as on a cancelled
    context, [rotateFile] has no error to wrap: it returns nil and has
    created and changed nothing. *)
Theorem rotateFile_without_attempt (f : File) (w : World) (name : string) :
  cancelled f = true \/ attempts (backoff f) = O ->
  rotateFile f w name = (None, f, w).
Proof.
  intros Hno. unfold rotateFile.
  replace (if cancelled f then O else attempts (backoff f)) with O
    by (destruct Hno as [-> | Hz]; [reflexivity | rewrite Hz; destruct (cancelled f); reflexivity]).
  reflexivity.
Qed.

(** X15: when the file cannot be created, [rotateFile], after as many
    attempts as the policy grants and at least one, returns the creation
    error wrapped with the name of the file, and leaves the [File] and the
    writer handles as they were. *)
Theorem rotateFile_exhausted (f : File) (w : World) (name : string) (err : error) (w1 : World) :
  cancelled f = false -> attempts (backoff f) <> O ->
  createFile name w = (inr err, w1) ->
  rotateFile f w name = (Some (Wrapped err ("failed to create file " +:+ name)), f, w1) /\
  w_handles w1 = w_handles w.
Proof.
  intros Hc Hn Hcreate. unfold rotateFile. rewrite Hc.
  destruct (attempts (backoff f)) as [| n]; [contradiction |]. clear Hn.
  split; [| apply createFile_spec in Hcreate; tauto].
  simpl. rewrite Hcreate. apply createFile_fails_again in Hcreate.
  induction n as [| n IH]; simpl; [reflexivity |].
  rewrite Hcreate. exact IH.
Qed.

(** X16: once the file is created, [rotateFile] installs the new handle
    and records the new name before anything else can fail; its error is
    then the error of [makeSymlink], wrapped, or nil, and what [purgeOld]
    returns plays no part in it. *)
Theorem rotateFile_installs (f : File) (w : World) (name : string) (newF : nat) (w1 : World) :
  cancelled f = false -> attempts (backoff f) <> O ->
  createFile name w = (inl newF, w1) ->
  let s := runSteps (swapSteps newF name) (f, w1) in
  fst s = set_filename (set_file f (Some newF)) name /\
  fst (fst (rotateFile f w name)) = Wrap (fst (makeSymlink (fst s) (snd s))) "failed to create symlink" /\
  snd (fst (rotateFile f w name)) = fst s /\
  w_handles (snd (rotateFile f w name)) = w_handles (snd s) /\
  w_files (snd (rotateFile f w name)) = w_files (snd (makeSymlink (fst s) (snd s))).
Proof.
  intros Hc Hn Hcreate. unfold rotateFile. rewrite Hc.
  destruct (attempts (backoff f)) as [| n]; [contradiction |]. clear Hn.
  simpl. rewrite Hcreate.
  set (f' := set_filename (set_file f (Some newF)) name).
  set (w' := match file f with Some old => finalizeWriter old w1 | None => w1 end).
  split; [reflexivity |].
  pose proof (makeSymlink_handles f' w') as [Hh _].
  destruct (makeSymlink f' w') as [[serr |] w3]; simpl in *.
  - repeat split; auto.
  - pose proof (purgeOld_world f' w3) as (Hph & Hpf & _).
    destruct (purgeOld f' w3) as [pe w4]. simpl in *. repeat split; congruence.
Qed.

End RotateFile.

(** ** The naming policy of getWriter *)

Section Naming.
Import GoTime Sys Rotating.
Context `{Libs}.

(** A rotation that was attempted and returned nil has installed the new
    handle under the new name. *)
Lemma rotateFile_nil (f : File) (w : World) (name : string) (f2 : File) (w2 : World) :
  cancelled f = false -> attempts (backoff f) <> O ->
  rotateFile f w name = (None, f2, w2) ->
  f2 = set_filename (set_file f (Some (length (w_handles w)))) name.
Proof.
  intros Hc Hn. unfold rotateFile. rewrite Hc. intros Hloop.
  apply rotateLoop_cases in Hloop as [(_ & _ & last & He & _ & Hsome) | [Hf _]]; [| exact Hf].
  destruct (Hsome Hn) as [x ->]. discriminate.
Qed.

(** The fields of the [File] that the size probe leaves alone. *)
Lemma sizeExceeded_keeps (f : File) (w : World) :
  let f1 := snd (fst (sizeExceeded f w)) in
  backoff f1 = backoff f /\ baseTime f1 = baseTime f /\ cancelled f1 = cancelled f /\
  clock f1 = clock f /\ file f1 = file f /\ filename f1 = filename f /\
  generation f1 = generation f /\ pattern f1 = pattern f /\
  maxInterval f1 = maxInterval f.
Proof.
  simpl. rewrite sizeExceeded_file.
  destruct (ready (nextCheck f) w); repeat split; reflexivity.
Qed.

(** [getWriter] returns a writer or an error, never both. *)
Lemma getWriter_writer (f : File) (w : World) (h : nat) :
  fst (fst (fst (getWriter f w))) = Some h -> snd (fst (fst (getWriter f w))) = None.
Proof.
  unfold getWriter. destruct (sizeExceeded f w) as [[sz f1] w1].
  destruct (sz || intervalExceeded f1 w1); [| reflexivity].
  assert (Hrot : forall g name,
             fst (fst (fst (match rotateFile g w1 name with
                            | (Some err, f, w) =>
                                (None, Some (Wrapped err "failed to rotate file"), f, w)
                            | (None, f, w) => (file f, None, f, w)
                            end))) = Some h ->
             snd (fst (fst (match rotateFile g w1 name with
                            | (Some err, f, w) =>
                                (None, Some (Wrapped err "failed to rotate file"), f, w)
                            | (None, f, w) => (file f, None, f, w)
                            end))) = None).
  { intros g name. destruct (rotateFile g w1 name) as [[[err |] f3] w3]; simpl;
      [discriminate | reflexivity]. }
  destruct (intervalExceeded f1 w1); [apply Hrot |].
  simpl. destruct (String.eqb _ _); apply Hrot.
Qed.

Lemma getWriter_result (f : File) (w : World) (h : nat) :
  fst (fst (fst (getWriter f w))) = Some h ->
  getWriter f w = (Some h, None, snd (fst (getWriter f w)), snd (getWriter f w)).
Proof.
  intros Hw. pose proof (getWriter_writer f w h Hw) as He.
  destruct (getWriter f w) as [[[o e] f2] w2]. simpl in *. congruence.
Qed.

(** The interval rotation, by the result of [getWriter]. *)
Lemma getWriter_interval_result
        (f : File) (w : World) (h : nat) (f2 : File) (w2 : World) :
  cancelled f = false -> attempts (backoff f) <> O ->
  intervalExceeded (snd (fst (sizeExceeded f w))) (snd (sizeExceeded f w)) = true ->
  getWriter f w = (Some h, None, f2, w2) ->
  baseTime f2 = truncate (clock f (snd (sizeExceeded f w))) (maxInterval f) /\
  generation f2 = 0 /\
  filename f2 = pattern f (baseTime f2) /\
  file f2 = Some h /\ h = length (w_handles (snd (sizeExceeded f w))).
Proof.
  intros Hc Hn. unfold getWriter.
  pose proof (sizeExceeded_keeps f w) as Hkeep.
  destruct (sizeExceeded f w) as [[sz f1] w1]. simpl in Hkeep |- *.
  destruct Hkeep as (Hb & Hbt & Hcc & Hck & Hfl & Hfn & Hg & Hp & Hmi).
  intros ->. rewrite orb_true_r. simpl.
  destruct (rotateFile _ w1 _) as [[[err |] f3] w3] eqn:Hrot; [discriminate |].
  apply rotateFile_nil in Hrot; [| simpl; congruence | simpl; congruence].
  subst f3. simpl. intros [= <- <- <-]. simpl.
  rewrite Hck, Hmi, Hp. repeat split; reflexivity.
Qed.

(** X17: a Write that finds the interval exceeded and gets its writer
    (the context live, the policy granting an attempt) has moved to the new
    slot: [baseTime] is the truncation of the clock reading, the generation
    is back at zero, the file name is the expansion of [baseTime], without
    suffix, and the writer is the handle just created; this also when the
    size was exceeded at the same time. *)
Theorem getWriter_interval_rotation (f : File) (w : World) (h : nat) :
  cancelled f = false -> attempts (backoff f) <> O ->
  intervalExceeded (snd (fst (sizeExceeded f w))) (snd (sizeExceeded f w)) = true ->
  fst (fst (fst (getWriter f w))) = Some h ->
  baseTime (snd (fst (getWriter f w)))
  = truncate (clock f (snd (sizeExceeded f w))) (maxInterval f) /\
  generation (snd (fst (getWriter f w))) = 0 /\
  filename (snd (fst (getWriter f w))) = pattern f (baseTime (snd (fst (getWriter f w)))) /\
  file (snd (fst (getWriter f w))) = Some h /\
  h = length (w_handles (snd (sizeExceeded f w))).
Proof.
  intros Hc Hn Hint Hw.
  exact (getWriter_interval_result f w h _ _ Hc Hn Hint (getWriter_result f w h Hw)).
Qed.

(** With nothing happening between the two readings [getWriterAt] is
    [getWriter]. *)
Lemma getWriterAt_same (f : File) (w : World) :
  getWriterAt (fun w => w) f w = getWriter f w.
Proof. reflexivity. Qed.

(** The size rotation, for the world [w1] of the second reading. *)
Lemma getWriterAt_size (later : World -> World) (f : File) (w : World) (h : nat) :
  cancelled f = false -> attempts (backoff f) <> O ->
  fst (fst (sizeExceeded f w)) = true ->
  intervalExceeded (snd (fst (sizeExceeded f w))) (snd (sizeExceeded f w)) = false ->
  fst (fst (fst (getWriterAt later f w))) = Some h ->
  let w1 := later (snd (sizeExceeded f w)) in
  let slot := truncate (clock f w1) (maxInterval f) in
  let f2 := snd (fst (getWriterAt later f w)) in
  baseTime f2 = slot /\
  file f2 = Some h /\ h = length (w_handles w1) /\
  (pattern f slot = filename f ->
   generation f2 = generation f + 1 /\
   filename f2 = pattern f slot +:+ "." +:+ pretty (generation f + 1)) /\
  (pattern f slot <> filename f ->
   generation f2 = generation f /\ filename f2 = pattern f slot) /\
  (clock f w1 = clock f (snd (sizeExceeded f w)) -> Equal (baseTime f) slot = true).
Proof.
  intros Hc Hn. unfold getWriterAt.
  pose proof (sizeExceeded_keeps f w) as Hkeep.
  destruct (sizeExceeded f w) as [[sz f1] w0]. simpl in Hkeep |- *.
  destruct Hkeep as (Hb & Hbt & Hcc & Hck & Hfl & Hfn & Hg & Hp & Hmi).
  intros -> Hint. rewrite Hint. simpl.
  assert (Hsame : clock f (later w0) = clock f w0 ->
                  Equal (baseTime f) (truncate (clock f (later w0)) (maxInterval f)) = true).
  { intros ->. unfold intervalExceeded in Hint. apply negb_false_iff in Hint.
    rewrite Hbt, Hck, Hmi in Hint. exact Hint. }
  rewrite Hp, Hfn, Hck, Hmi, Hg.
  destruct (String.eqb (pattern f (truncate (clock f (later w0)) (maxInterval f))) (filename f))
    eqn:Heq.
  - apply String.eqb_eq in Heq.
    destruct (rotateFile _ (later w0) _) as [[[err |] f3] w3] eqn:Hrot; [discriminate |].
    apply rotateFile_nil in Hrot; [| simpl; congruence | simpl; congruence].
    subst f3. simpl. intros [= <-].
    repeat split; intros; try reflexivity; try assumption; try congruence.
    apply Hsame. assumption.
  - apply String.eqb_neq in Heq.
    destruct (rotateFile _ (later w0) _) as [[[err |] f3] w3] eqn:Hrot; [discriminate |].
    apply rotateFile_nil in Hrot; [| simpl; congruence | simpl; congruence].
    subst f3. simpl. intros [= <-].
    repeat split; intros; try reflexivity; try assumption; try congruence.
    apply Hsame. assumption.
Qed.

(** X18: with a live context and a policy that grants an attempt, a pass
    of [getWriter] that finds only the size exceeded and gets its writer
    sets [baseTime] to the truncation of its second clock reading and names
    the new file after the current one: when the expansion of that
    [baseTime] is the current file name, the generation goes up by one and
    the name gets it as a suffix; when it is not, as after an earlier size
    rotation of the slot, the generation stays and the bare expansion is
    opened.  When the clock reads at the second reading what it read at the
    first, the writer stays in its slot. *)
Theorem getWriter_size_rotation (later : World -> World) (f : File) (w : World) (h : nat) :
  cancelled f = false -> attempts (backoff f) <> O ->
  fst (fst (sizeExceeded f w)) = true ->
  intervalExceeded (snd (fst (sizeExceeded f w))) (snd (sizeExceeded f w)) = false ->
  fst (fst (fst (getWriterAt later f w))) = Some h ->
  let w1 := later (snd (sizeExceeded f w)) in
  let slot := truncate (clock f w1) (maxInterval f) in
  let f2 := snd (fst (getWriterAt later f w)) in
  baseTime f2 = slot /\
  file f2 = Some h /\ h = length (w_handles w1) /\
  (pattern f slot = filename f ->
   generation f2 = generation f + 1 /\
   filename f2 = pattern f slot +:+ "." +:+ pretty (generation f + 1)) /\
  (pattern f slot <> filename f ->
   generation f2 = generation f /\ filename f2 = pattern f slot) /\
  (clock f w1 = clock f (snd (sizeExceeded f w)) -> Equal (baseTime f) slot = true).
Proof.
  intros Hc Hn Hsz Hint Hw. exact (getWriterAt_size later f w h Hc Hn Hsz Hint Hw).
Qed.

End Naming.

(** ** Which handles are open *)

Section OpenHandles.
Import GoTime Sys Rotating.

Lemma fmap_insert_same (hs : list Handle) (h : nat) (hd hd' : Handle) :
  hs !! h = Some hd -> h_closed hd' = h_closed hd ->
  h_closed <$> <[h := hd']> hs = h_closed <$> hs.
Proof.
  intros Hhd Hc. rewrite list_fmap_insert, Hc.
  apply list_insert_id. rewrite list_lookup_fmap, Hhd. reflexivity.
Qed.

(** Flushing opens and closes nothing. *)
Lemma bw_Flush_closed (h : nat) (w : World) :
  h_closed <$> w_handles (snd (bw_Flush h w)) = h_closed <$> w_handles w.
Proof.
  unfold bw_Flush. destruct (w_handles w !! h) as [hd |] eqn:Hhd; [| reflexivity].
  destruct (h_err hd); [reflexivity |].
  destruct (h_n hd =? 0); [reflexivity |].
  unfold file_Write. destruct (h_closed hd) eqn:Hc; simpl;
    apply (fmap_insert_same _ _ hd); auto.
Qed.

Lemma flushWriter_closed (h : nat) (w : World) :
  h_closed <$> w_handles (flushWriter h w) = h_closed <$> w_handles w.
Proof.
  unfold flushWriter. pose proof (bw_Flush_closed h w) as Hc.
  destruct (bw_Flush h w) as [e w']. exact Hc.
Qed.

(** [finalizeWriter] closes its handle and no other. *)
Lemma finalizeWriter_closes (h : nat) (w : World) :
  h_closed <$> w_handles (finalizeWriter h w) = <[h := true]> (h_closed <$> w_handles w).
Proof.
  unfold finalizeWriter. rewrite <- (flushWriter_closed h w).
  generalize (flushWriter h w). intros w'. unfold bw_Close.
  destruct (w_handles w' !! h) as [hd |] eqn:Hhd.
  - destruct (h_closed hd) eqn:Hc; simpl.
    + symmetry. apply list_insert_id. rewrite list_lookup_fmap, Hhd. simpl. congruence.
    + rewrite list_fmap_insert. reflexivity.
  - simpl. symmetry. apply list_insert_ge.
    rewrite length_fmap. apply lookup_ge_None. exact Hhd.
Qed.

Lemma bw_fill_closed (fuel : nat) (h : nat) :
  forall (len nn : Z) (w : World),
    h_closed <$> w_handles (snd (bw_fill fuel h len nn w)) = h_closed <$> w_handles w.
Proof.
  induction fuel as [| fuel IH]; intros len nn w; simpl; [reflexivity |].
  destruct (w_handles w !! h) as [hd |] eqn:Hhd; [| reflexivity].
  destruct (_ && _); [| reflexivity].
  destruct (h_n hd =? 0).
  - unfold file_Write. destruct (h_closed hd) eqn:Hc; simpl; rewrite IH; simpl;
      apply (fmap_insert_same _ _ hd); auto.
  - rewrite IH, bw_Flush_closed. simpl. apply (fmap_insert_same _ _ hd); auto.
Qed.

(** Writing opens and closes nothing. *)
Lemma bw_Write_closed (h : nat) (p : list byte) (w : World) :
  h_closed <$> w_handles (snd (bw_Write h p w)) = h_closed <$> w_handles w.
Proof.
  unfold bw_Write. pose proof (bw_fill_closed 2 h (Z.of_nat (length p)) 0 w) as Hfill.
  destruct (bw_fill 2 h _ 0 w) as [[len nn] w']. simpl in Hfill.
  destruct (w_handles w' !! h) as [hd |] eqn:Hhd; [| exact Hfill].
  destruct (h_err hd); [exact Hfill |].
  simpl. rewrite <- Hfill. apply (fmap_insert_same _ _ hd); auto.
Qed.

Lemma oneOpen_closed_map (f : File) (w : World) :
  oneOpen f w = true <->
  forall h, (h_closed <$> w_handles w) !! h = Some false -> file f = Some h.
Proof.
  unfold oneOpen. rewrite forallb_forall. split.
  - intros Hone h. rewrite list_lookup_fmap.
    destruct (w_handles w !! h) as [hd |] eqn:Hhd; [| discriminate].
    simpl. intros [= Hc].
    assert (Hin : In (h, hd) (imap pair (w_handles w))).
    { apply list_elem_of_In, elem_of_lookup_imap. eauto. }
    apply Hone in Hin. simpl in Hin. rewrite Hc in Hin. simpl in Hin.
    apply bool_decide_eq_true in Hin. exact Hin.
  - intros Hmap [h hd] Hin.
    apply list_elem_of_In, elem_of_lookup_imap in Hin as (i & y & [= -> ->] & Hy).
    simpl. destruct (h_closed y) eqn:Hc; [reflexivity |]. simpl.
    apply bool_decide_eq_true, Hmap. rewrite list_lookup_fmap, Hy. simpl. congruence.
Qed.

Lemma allClosed_closed_map (w : World) :
  allClosed w = true <->
  forall h, (h_closed <$> w_handles w) !! h = Some false -> False.
Proof.
  unfold allClosed. rewrite forallb_forall. split.
  - intros Hall h. rewrite list_lookup_fmap.
    destruct (w_handles w !! h) as [hd |] eqn:Hhd; [| discriminate].
    simpl. intros [= Hc]. apply list_elem_of_lookup_2, list_elem_of_In, Hall in Hhd. congruence.
  - intros Hmap hd Hin. apply list_elem_of_In, list_elem_of_lookup_1 in Hin as [h Hh].
    destruct (h_closed hd) eqn:Hc; [reflexivity |]. exfalso.
    apply (Hmap h). rewrite list_lookup_fmap, Hh. simpl. congruence.
Qed.

(** The second [finalizeWriter] finds nothing left to do. *)
Lemma finalizeWriter_twice (h : nat) (w : World) :
  finalizeWriter h (finalizeWriter h w) = finalizeWriter h w.
Proof.
  assert (Hsettled : forall w',
             (match w_handles w' !! h with
              | Some hd => h_closed hd = true /\ (is_Some (h_err hd) \/ h_n hd = 0)
              | None => True
              end) -> finalizeWriter h w' = w').
  { intros w' Hs. unfold finalizeWriter, flushWriter, bw_Flush, bw_Close.
    destruct (w_handles w' !! h) as [hd |] eqn:Hhd; [| simpl; rewrite Hhd; reflexivity].
    destruct Hs as [Hc [[e He] | Hn]].
    - rewrite He. simpl. rewrite Hhd, Hc. reflexivity.
    - destruct (h_err hd); [simpl; rewrite Hhd, Hc; reflexivity |].
      rewrite Hn. simpl. rewrite Hhd, Hc. reflexivity. }
  apply Hsettled.
  unfold finalizeWriter, flushWriter, bw_Flush.
  destruct (w_handles w !! h) as [hd |] eqn:Hhd.
  - pose proof (lookup_lt_Some _ _ _ Hhd) as Hlt.
    destruct (h_err hd) as [e |] eqn:He.
    + unfold bw_Close. rewrite Hhd. destruct (h_closed hd) eqn:Hc; simpl.
      * rewrite Hhd. rewrite He, Hc. eauto.
      * rewrite list_lookup_insert_eq by exact Hlt. simpl. rewrite He. eauto.
    + destruct (h_n hd =? 0) eqn:Hn.
      * apply Z.eqb_eq in Hn. unfold bw_Close. rewrite Hhd.
        destruct (h_closed hd) eqn:Hc; simpl.
        -- rewrite Hhd. auto.
        -- rewrite list_lookup_insert_eq by exact Hlt. simpl. auto.
      * unfold file_Write. destruct (h_closed hd) eqn:Hc; simpl.
        -- unfold bw_Close. simpl. rewrite list_lookup_insert_eq by exact Hlt. simpl.
           rewrite list_lookup_insert_eq by exact Hlt. simpl. eauto.
        -- unfold bw_Close. simpl. rewrite list_lookup_insert_eq by exact Hlt. simpl.
           rewrite list_lookup_insert_eq by (rewrite length_insert; exact Hlt). simpl. auto.
  - unfold bw_Close. simpl. rewrite Hhd. simpl. rewrite Hhd. exact I.
Qed.

(** X19: [Close] a second time changes nothing: the [File] and the world
    after two calls are the [File] and the world after one, whatever state
    the writer was in. *)
Theorem Close_twice (f : File) (w : World) :
  Close (snd (fst (Close f w))) (snd (Close f w))
  = (None, snd (fst (Close f w)), snd (Close f w)).
Proof.
  unfold Close. simpl. destruct (file f) as [h |]; [| reflexivity].
  rewrite finalizeWriter_twice. reflexivity.
Qed.

(** X20: when no handle but the writer's is open, [Close] leaves no
    handle open at all. *)
Theorem Close_closes_all (f : File) (w : World) :
  oneOpen f w = true -> allClosed (snd (Close f w)) = true.
Proof.
  intros Hone. apply allClosed_closed_map. intros h Hmap.
  unfold Close in Hmap. simpl in Hmap.
  pose proof (proj1 (oneOpen_closed_map f w) Hone) as Hmapone. clear Hone.
  rename Hmapone into Hone. destruct (file f) as [a |] eqn:Hf.
  - rewrite finalizeWriter_closes in Hmap.
    destruct (decide (a = h)) as [-> | Hne].
    + pose proof (lookup_lt_Some _ _ _ Hmap) as Hlt. rewrite length_insert in Hlt.
      rewrite list_lookup_insert_eq in Hmap by exact Hlt. discriminate.
    + rewrite list_lookup_insert_ne in Hmap by exact Hne.
      specialize (Hone h Hmap). congruence.
  - specialize (Hone h Hmap). discriminate.
Qed.

End OpenHandles.

(** ** Invariants of Write *)

Section WriteInvariants.
Import GoTime Sys Rotating.
Context `{Libs}.

Lemma swap_oneOpen (f : File) (w w1 : World) (name : string) :
  oneOpen f w = true ->
  w_handles w1 = (w_handles w ++ [mkHandle name 0 None false])%list ->
  forall h,
    (h_closed <$> w_handles (match file f with
                             | Some old => finalizeWriter old w1
                             | None => w1
                             end)) !! h = Some false ->
    h = length (w_handles w).
Proof.
  intros Hone Hnew h Hh.
  pose proof (proj1 (oneOpen_closed_map f w) Hone) as Hmap.
  assert (Hbase : forall k, (h_closed <$> w_handles w1) !! k = Some false ->
                            k <> length (w_handles w) -> file f = Some k).
  { intros k Hk Hne. apply Hmap. rewrite Hnew, fmap_app in Hk.
    destruct (decide (k < length (w_handles w))%nat) as [Hlt | Hge].
    - rewrite lookup_app_l in Hk by (rewrite length_fmap; exact Hlt). exact Hk.
    - pose proof (lookup_lt_Some _ _ _ Hk) as Hlen.
      rewrite length_app, length_fmap in Hlen. simpl in Hlen. lia. }
  destruct (decide (h = length (w_handles w))) as [-> | Hne]; [reflexivity |].
  exfalso. destruct (file f) as [old |] eqn:Hf.
  - rewrite finalizeWriter_closes in Hh.
    destruct (decide (old = h)) as [-> | Hoh].
    + pose proof (lookup_lt_Some _ _ _ Hh) as Hlt. rewrite length_insert in Hlt.
      rewrite list_lookup_insert_eq in Hh by exact Hlt. discriminate.
    + rewrite list_lookup_insert_ne in Hh by exact Hoh.
      specialize (Hbase h Hh Hne). congruence.
  - specialize (Hbase h Hh Hne). discriminate.
Qed.

Lemma rotateLoop_oneOpen (n : nat) (name : string) :
  forall (lastError : option error) (f : File) (w : World),
    oneOpen f w = true ->
    oneOpen (snd (fst (rotateLoop n name lastError f w)))
            (snd (rotateLoop n name lastError f w)) = true.
Proof.
  induction n as [| n IH]; intros lastError f w Hone; simpl; [exact Hone |].
  destruct (createFile name w) as [[newF | err] w1] eqn:Hcreate.
  - apply createFile_spec in Hcreate as (_ & _ & _ & -> & Hnew & _).
    unfold runSteps. simpl.
    set (f' := set_filename (set_file f (Some (length (w_handles w)))) name).
    set (w' := match file f with Some old => finalizeWriter old w1 | None => w1 end).
    assert (Hone' : forall w2, w_handles w2 = w_handles w' -> oneOpen f' w2 = true).
    { intros w2 Hw2. apply oneOpen_closed_map. intros h Hh. rewrite Hw2 in Hh.
      simpl. f_equal. symmetry. exact (swap_oneOpen f w w1 name Hone Hnew h Hh). }
    pose proof (makeSymlink_handles f' w') as [Hh _].
    destruct (makeSymlink f' w') as [[serr |] w3]; simpl in *.
    + apply Hone'. exact Hh.
    + pose proof (purgeOld_world f' w3) as (Hph & _).
      destruct (purgeOld f' w3) as [pe w4]. simpl in *. apply Hone'. congruence.
  - apply createFile_spec in Hcreate as (_ & _ & _ & Hh & _).
    apply IH. apply oneOpen_closed_map. rewrite Hh. apply oneOpen_closed_map. exact Hone.
Qed.

Lemma sizeExceeded_oneOpen (f : File) (w : World) :
  oneOpen f w = true ->
  oneOpen (snd (fst (sizeExceeded f w))) (snd (sizeExceeded f w)) = true.
Proof.
  intros Hone. pose proof (proj1 (oneOpen_closed_map f w) Hone) as Hmap.
  apply oneOpen_closed_map.
  pose proof (sizeExceeded_keeps f w) as (_ & _ & _ & _ & Hfile & _).
  rewrite Hfile. clear Hfile Hone.
  assert (Hw : h_closed <$> w_handles (snd (sizeExceeded f w)) = h_closed <$> w_handles w).
  { unfold sizeExceeded. destruct (ready (nextCheck f) w); simpl; [| reflexivity].
    destruct (file f) as [h |]; [| reflexivity].
    destruct (os_Stat _ _); simpl; apply flushWriter_closed. }
  rewrite Hw. exact Hmap.
Qed.

Lemma getWriter_oneOpen (f : File) (w : World) :
  oneOpen f w = true ->
  oneOpen (snd (fst (getWriter f w))) (snd (getWriter f w)) = true.
Proof.
  intros Hone. apply sizeExceeded_oneOpen in Hone. unfold getWriter.
  destruct (sizeExceeded f w) as [[sz f1] w1]. simpl in Hone.
  assert (Hrot : forall g name,
             oneOpen g w1 = true ->
             oneOpen (snd (fst (match rotateFile g w1 name with
                                | (Some err, f, w) =>
                                    (None, Some (Wrapped err "failed to rotate file"), f, w)
                                | (None, f, w) => (file f, None, f, w)
                                end)))
                     (snd (match rotateFile g w1 name with
                           | (Some err, f, w) =>
                               (None, Some (Wrapped err "failed to rotate file"), f, w)
                           | (None, f, w) => (file f, None, f, w)
                           end)) = true).
  { intros g name Hg.
    pose proof (rotateLoop_oneOpen
                  (if cancelled g then O else attempts (backoff g)) name None g w1 Hg) as Hr.
    fold (rotateFile g w1 name) in Hr.
    destruct (rotateFile g w1 name) as [[[err |] f3] w3]; exact Hr. }
  destruct (sz || intervalExceeded f1 w1); [| exact Hone].
  destruct (intervalExceeded f1 w1); [apply Hrot; exact Hone |].
  simpl. destruct (String.eqb _ _); apply Hrot; exact Hone.
Qed.

(** X21: [Write] keeps the writer handles in order: if no handle but the
    one the [File] holds is open before the call, none but the one the
    [File] holds is open after it, whether the call rotated, failed or
    just wrote.  A rotation closes the old handle and a failed creation
    opens none. *)
Theorem Write_oneOpen (f : File) (w : World) (p : list byte) :
  oneOpen f w = true ->
  oneOpen (snd (fst (Write f w p))) (snd (Write f w p)) = true.
Proof.
  intros Hone. apply getWriter_oneOpen in Hone. unfold Write.
  destruct (getWriter f w) as [[[o e] f2] w2]. simpl in Hone.
  destruct e as [err |]; [destruct o; exact Hone |].
  destruct o as [h |]; [| exact Hone].
  pose proof (bw_Write_closed h p w2) as Hc.
  destruct (bw_Write h p w2) as [r w3]. simpl in *.
  apply oneOpen_closed_map. rewrite Hc. apply oneOpen_closed_map. exact Hone.
Qed.

(** The timer is changed by the size probe only. *)
Lemma getWriter_nextCheck (f : File) (w : World) :
  nextCheck (snd (fst (getWriter f w))) = nextCheck (snd (fst (sizeExceeded f w))).
Proof.
  unfold getWriter. destruct (sizeExceeded f w) as [[sz f1] w1]. simpl.
  assert (Hrot : forall g name,
             nextCheck (snd (fst (match rotateFile g w1 name with
                                  | (Some err, f, w) =>
                                      (None, Some (Wrapped err "failed to rotate file"), f, w)
                                  | (None, f, w) => (file f, None, f, w)
                                  end)))
             = nextCheck g).
  { intros g name. destruct (rotateFile g w1 name) as [[e f3] w3] eqn:Hr.
    unfold rotateFile in Hr.
    apply rotateLoop_cases in Hr as [Hr | Hr]; destruct e; simpl.
    all: revert Hr; intros Hr; decompose [and ex] Hr; subst; try reflexivity; try discriminate. }
  destruct (sz || intervalExceeded f1 w1); [| reflexivity].
  destruct (intervalExceeded f1 w1); [rewrite Hrot; reflexivity |].
  simpl. destruct (String.eqb _ _); rewrite Hrot; reflexivity.
Qed.

(** X22: a writer whose timer is stopped, as [NewFile] leaves it when
    neither a check interval nor a size limit is given, never finds the size
    exceeded: after any series of Writes, whatever happens to the world in
    between, the timer is still stopped and the probe answers false. *)
Theorem stopped_timer_never_rotates_by_size
        (steps : list ((World -> World) * list byte)) :
  forall (f : File) (w w' : World),
    nextCheck f = Stopped ->
    nextCheck (fst (WriteSeq f w steps)) = Stopped /\
    fst (fst (sizeExceeded (fst (WriteSeq f w steps)) w')) = false.
Proof.
  induction steps as [| [env p] rest IH]; intros f w w' Hstop; simpl.
  - split; [exact Hstop |]. rewrite sizeExceeded_not_due; [reflexivity |].
    rewrite Hstop. reflexivity.
  - assert (Hnext : nextCheck (snd (fst (Write f (env w) p))) = Stopped).
    { unfold Write. pose proof (getWriter_nextCheck f (env w)) as Hg.
      rewrite sizeExceeded_file, Hstop in Hg. simpl in Hg.
      destruct (getWriter f (env w)) as [[[o e] f2] w2]. simpl in Hg.
      destruct o as [h |], e as [err |]; simpl; try congruence.
      destruct (bw_Write h p w2); simpl; congruence. }
    destruct (Write f (env w) p) as [[out f2] w2]. simpl in Hnext.
    apply IH. exact Hnext.
Qed.

End WriteInvariants.

(** ** What purgeOld marks *)

Section PurgeMarks.
Import GoTime Sys Rotating.
Context `{Libs}.

(** What the first loop caches under a path is what [os.Lstat] says of it. *)
Lemma statAll_value (matches : list string) (w : World) :
  forall (stats : gmap string FileInfo) (path : string) (fi : FileInfo),
    statAll matches w stats !! path = Some fi ->
    stats !! path = Some fi \/ os_Lstat path w = inl fi.
Proof.
  induction matches as [| m rest IH]; intros stats path fi Hin; simpl in *; [left; exact Hin |].
  destruct (isTemporary m); [exact (IH _ _ _ Hin) |].
  destruct (os_Lstat m w) as [fm | err] eqn:Hm; [| exact (IH _ _ _ Hin)].
  destruct (IH _ _ _ Hin) as [Hs | Hl]; [| right; exact Hl].
  destruct (decide (m = path)) as [-> | Hne].
  - rewrite lookup_insert_eq in Hs. right. congruence.
  - rewrite lookup_insert_ne in Hs by exact Hne. left. exact Hs.
Qed.

(** The symlink block takes the link's target out and nothing else. *)
Lemma protectTarget_lookup (f : File) (w : World) (stats : gmap string FileInfo)
      (x : string) (fi : FileInfo) :
  fst (protectTarget f w stats) !! x = Some fi ->
  stats !! x = Some fi /\
  (forall dst, symlink f <> "" -> os_Readlink (symlink f) w = inl dst -> x <> dst).
Proof.
  unfold protectTarget. destruct (String.eqb (symlink f) "") eqn:Hsym.
  - apply String.eqb_eq in Hsym. simpl. intros Hx. split; [exact Hx |].
    intros dst Hne. contradiction.
  - destruct (os_Readlink (symlink f) w) as [dst | err]; simpl; intros Hx.
    + destruct (decide (dst = x)) as [-> | Hne].
      * rewrite lookup_delete_eq in Hx. discriminate.
      * rewrite lookup_delete_ne in Hx by exact Hne. split; [exact Hx |].
        intros dst' _ [= <-]. congruence.
    + split; [exact Hx |]. intros dst _ Hd. discriminate.
Qed.

(** What the second loop puts where. *)
Lemma classify_rule (stats : gmap string FileInfo) (age : Z) (cutoff : Time)
      (matches : list string) (x : string) :
  (x ∈ fst (classify stats age cutoff matches) ->
   exists fi, stats !! x = Some fi /\ 0 < age /\ After (ModTime fi) cutoff = true) /\
  (x ∈ snd (classify stats age cutoff matches) ->
   exists fi, stats !! x = Some fi /\ FileMode fi <> Symlink /\
              (0 < age -> After (ModTime fi) cutoff = false)).
Proof.
  induction matches as [| m rest [IHp IHc]]; simpl.
  - split; intros Hx; inversion Hx.
  - destruct (classify stats age cutoff rest) as [toPurge candidates]. simpl in *.
    destruct (stats !! m) as [fm |] eqn:Hm; [| split; assumption].
    destruct ((age >? 0) && After (ModTime fm) cutoff) eqn:Hage.
    + simpl. split; [| exact IHc]. intros Hx.
      apply elem_of_cons in Hx as [-> | Hx]; [| exact (IHp Hx)].
      apply andb_true_iff in Hage as [Hpos Hafter]. exists fm.
      split; [exact Hm |]. split; [lia | exact Hafter].
    + assert (Hnew : exists fi, stats !! m = Some fi /\ (FileMode fm = FileMode fi) /\
                                (0 < age -> After (ModTime fi) cutoff = false)).
      { exists fm. split; [exact Hm |]. split; [reflexivity |]. intros Hpos.
        apply andb_false_iff in Hage as [Hage | Hage]; [lia | exact Hage]. }
      destruct (FileMode fm) eqn:Hmode; simpl; (split; [exact IHp |]); try exact IHc.
      all: intros Hx; apply elem_of_cons in Hx as [-> | Hx]; [| exact (IHc Hx)].
      all: destruct Hnew as (fi & Hfi & Heq & Hold); exists fi.
      all: split; [exact Hfi |]; split; [congruence | exact Hold].
Qed.

(** The age rule marks nothing when [maxAge] is not positive. *)
Lemma classify_no_age (stats : gmap string FileInfo) (age : Z) (cutoff : Time)
      (matches : list string) :
  age <= 0 -> fst (classify stats age cutoff matches) = [].
Proof.
  intros Hage. destruct (fst (classify stats age cutoff matches)) as [| x l] eqn:Hfst;
    [reflexivity |].
  assert (Hx : x ∈ fst (classify stats age cutoff matches))
    by (rewrite Hfst; apply elem_of_cons; left; reflexivity).
  apply classify_rule in Hx as (fi & _ & Hpos & _). lia.
Qed.

(** X23: with neither [maxAge] nor [rotationCount] positive, as [NewFile]
    leaves them when no WithRotationCount is given, [purgeOld] marks
    nothing and starts no deletion: the world is as it was, whatever the
    glob matched. *)
Theorem purgeOld_disabled (f : File) (w : World) :
  maxAge f <= 0 -> rotationCount f <= 0 ->
  snd (purgeOld f w) = w /\
  (forall matches, selectPurge f w matches = []).
Proof.
  intros Hage Hcount.
  assert (Hnone : forall matches, selectPurge f w matches = []).
  { intros matches. unfold selectPurge.
    destruct (protectTarget f w (statAll matches w ∅)) as [stats protected].
    pose proof (classify_no_age stats (maxAge f) (Add (clock f w) (-1 * maxAge f))
                                (sortedKeys stats) Hage) as Hfst.
    destruct (classify stats (maxAge f) _ (sortedKeys stats)) as [toPurge candidates].
    simpl in Hfst. subst toPurge.
    replace (rotationCount f >? 0) with false by (symmetry; rewrite Z.gtb_ltb; apply Z.ltb_ge; lia).
    reflexivity. }
  split; [| exact Hnone].
  unfold purgeOld. destruct (filepath_Glob (globPattern f) (w_files w)) as [matches | err];
    [| reflexivity].
  rewrite Hnone. reflexivity.
Qed.

(** X24: every path that [purgeOld] hands to the deletion goroutine is one
    of the glob's matches that [os.Lstat] could read, is no lock or staging
    file, and differs from the text that [os.Readlink] returned for the
    symlink (compared as strings: nothing is said of the file that a
    relative link text points to).  It was marked either by the age rule,
    with [maxAge] positive and a modification time after the cutoff, or by
    the count rule, with [rotationCount] positive, and then it is no
    symbolic link. *)
Theorem selectPurge_marks (f : File) (w : World) (matches : list string) :
  Forall (fun x =>
            x ∈ matches /\ isTemporary x = false /\
            (forall dst, symlink f <> "" -> os_Readlink (symlink f) w = inl dst -> x <> dst) /\
            exists fi, os_Lstat x w = inl fi /\
                       ((0 < maxAge f /\
                         After (ModTime fi) (Add (clock f w) (-1 * maxAge f)) = true) \/
                        (0 < rotationCount f /\ FileMode fi <> Symlink)))
         (selectPurge f w matches).
Proof.
  apply Forall_forall. intros x Hx.
  assert (Hcase : exists fi,
             fst (protectTarget f w (statAll matches w ∅)) !! x = Some fi /\
             ((0 < maxAge f /\
               After (ModTime fi) (Add (clock f w) (-1 * maxAge f)) = true) \/
              (0 < rotationCount f /\ FileMode fi <> Symlink))).
  { unfold selectPurge in Hx.
    destruct (protectTarget f w (statAll matches w ∅)) as [stats protected]. simpl.
    pose proof (classify_rule stats (maxAge f) (Add (clock f w) (-1 * maxAge f))
                              (sortedKeys stats) x) as [Hp Hc].
    destruct (classify stats (maxAge f) _ (sortedKeys stats)) as [toPurge candidates].
    simpl in Hp, Hc.
    assert (Hin : x ∈ toPurge \/ (0 < rotationCount f /\ x ∈ candidates)).
    { destruct (rotationCount f >? 0) eqn:Hpos; [| left; exact Hx].
      assert (0 < rotationCount f) by lia.
      destruct (_ >? _) in Hx; [| left; exact Hx].
      apply elem_of_app in Hx as [Hx | Hx]; [left; exact Hx |].
      right. split; [assumption |].
      exact (subseteq_take _ _ _ Hx). }
    destruct Hin as [Hin | [Hpos Hin]].
    - destruct (Hp Hin) as (fi & Hfi & Hage & Hafter). exists fi. split; [exact Hfi |].
      left. split; assumption.
    - destruct (Hc Hin) as (fi & Hfi & Hmode & _). exists fi. split; [exact Hfi |].
      right. split; assumption. }
  destruct Hcase as (fi & Hfi & Hrule).
  apply protectTarget_lookup in Hfi as [Hstat Hdst].
  destruct (statAll_lookup matches w ∅ x (mk_is_Some _ _ Hstat)) as [Hempty | [Hm Ht]].
  { rewrite lookup_empty in Hempty. destruct Hempty as [? Hempty]. discriminate. }
  apply statAll_value in Hstat as [Hempty | Hl].
  { rewrite lookup_empty in Hempty. discriminate. }
  split; [exact Hm |]. split; [exact Ht |]. split; [exact Hdst |].
  exists fi. split; [exact Hl | exact Hrule].
Qed.

(** A removal takes out its path and no other. *)
Lemma removeAll_files (files : list string) :
  forall (w : World) (x : string),
    w_files (removeAll files w) !! x
    = if bool_decide (x ∈ files) then None else w_files w !! x.
Proof.
  unfold removeAll.
  induction files as [| a rest IH]; intros w x; simpl; [reflexivity |].
  rewrite IH. simpl.
  destruct (decide (a = x)) as [-> | Hne].
  - rewrite lookup_delete_eq.
    rewrite (bool_decide_eq_true_2 (x ∈ x :: rest)) by (apply elem_of_cons; left; reflexivity).
    destruct (bool_decide (x ∈ rest)); reflexivity.
  - rewrite lookup_delete_ne by exact Hne.
    destruct (decide (x ∈ rest)) as [Hin | Hnin].
    + rewrite (bool_decide_eq_true_2 _ Hin).
      rewrite (bool_decide_eq_true_2 (x ∈ a :: rest)) by (apply elem_of_cons; right; exact Hin).
      reflexivity.
    + rewrite (bool_decide_eq_false_2 _ Hnin).
      rewrite (bool_decide_eq_false_2 (x ∈ a :: rest)); [reflexivity |].
      intros Hx. apply elem_of_cons in Hx as [-> | Hx]; [congruence | contradiction].
Qed.

Lemma removeAll_rest (files : list string) :
  forall w : World,
    w_handles (removeAll files w) = w_handles w /\
    w_pending (removeAll files w) = w_pending w /\
    w_fake (removeAll files w) = w_fake w /\ w_mono (removeAll files w) = w_mono w.
Proof.
  unfold removeAll.
  induction files as [| a rest IH]; intros w; simpl; [repeat split |].
  destruct (IH (os_Remove a w)) as (Hh & Hp & Hf & Hm).
  rewrite Hh, Hp, Hf, Hm. repeat split.
Qed.

(** X25: the deletion goroutine removes the files it was handed and no
    others: afterwards, every removal having gone through (the goroutine
    drops the errors of [os.Remove], and the model has none), a path is
    there exactly when it was there and was not marked.  The writer's
    handles, open on whatever path, are not touched, so a marked file that
    is still being written is unlinked under its writer. *)
Theorem removeAll_removes_marked (files : list string) (w : World) (x : string) :
  w_files (removeAll files w) !! x
  = (if bool_decide (x ∈ files) then None else w_files w !! x) /\
  w_handles (removeAll files w) = w_handles w.
Proof.
  split; [apply removeAll_files | apply removeAll_rest].
Qed.

End PurgeMarks.

(** ** The age rule *)

Section AgeRule.
Import GoTime Sys Rotating.
Context `{Libs}.





End AgeRule.

(** ** Flushing on Close, and the slot after an attempt *)

Section Settling.
Import GoTime Sys Rotating.
Context `{Libs}.

(** What [finalizeWriter] does to the files: a writer in good order has its
    buffered bytes appended to the file under its path, if that is still
    there. *)
Lemma finalizeWriter_files (h : nat) (hd : Handle) (w : World) :
  w_handles w !! h = Some hd -> h_err hd = None -> h_closed hd = false ->
  w_files (finalizeWriter h w)
  = (if h_n hd =? 0 then w_files w
     else alter (fun fi => mkFileInfo (Size fi + h_n hd) (w_wall w) (FileMode fi))
                (h_path hd) (w_files w)) /\
  w_handles (finalizeWriter h w) !! h = Some (mkHandle (h_path hd) 0 None true).
Proof.
  intros Hhd Herr Hopen.
  destruct (finalizeWriter_healthy h hd w Hhd Herr Hopen) as [path Hfin].
  split.
  - assert (Hc : forall w0, w_files (snd (bw_Close h w0)) = w_files w0).
    { intros w0. unfold bw_Close.
      destruct (w_handles w0 !! h) as [x |]; [destruct (h_closed x) |]; reflexivity. }
    unfold finalizeWriter. rewrite Hc. unfold flushWriter, bw_Flush. rewrite Hhd, Herr.
    destruct (h_n hd =? 0); [reflexivity |].
    unfold file_Write. rewrite Hopen. reflexivity.
  - pose proof (lookup_lt_Some _ _ _ Hhd) as Hlt.
    destruct (bw_Flush_healthy h hd w Hhd Herr Hopen) as (w1 & Hflush & Hhs).
    unfold finalizeWriter, flushWriter. rewrite Hflush.
    assert (Hw1 : w_handles w1 !! h = Some (mkHandle (h_path hd) 0 None false))
      by (rewrite Hhs; apply list_lookup_insert_eq; exact Hlt).
    unfold bw_Close. rewrite Hw1. simpl.
    apply list_lookup_insert_eq. rewrite Hhs, length_insert. exact Hlt.
Qed.

(** X26: [Close] flushes before it closes: for a writer in good order
    whose file is still there, the bytes held in the buffer are in the file
    afterwards, the size of the file being what it was plus the buffered
    count, and the handle is left closed with an empty buffer and no
    error. *)
Theorem Close_flushes_buffer (f : File) (w : World) (h : nat) (hd : Handle) (fi : FileInfo) :
  file f = Some h -> w_handles w !! h = Some hd ->
  h_err hd = None -> h_closed hd = false ->
  w_files w !! h_path hd = Some fi ->
  (exists fi', w_files (snd (Close f w)) !! h_path hd = Some fi' /\
               Size fi' = Size fi + h_n hd /\ FileMode fi' = FileMode fi) /\
  w_handles (snd (Close f w)) !! h = Some (mkHandle (h_path hd) 0 None true) /\
  cancelled (snd (fst (Close f w))) = true.
Proof.
  intros Hf Hhd Herr Hopen Hfi. unfold Close. simpl. rewrite Hf.
  destruct (finalizeWriter_files h hd w Hhd Herr Hopen) as [Hfiles Hhandle].
  split; [| split; [exact Hhandle | reflexivity]].
  rewrite Hfiles. destruct (h_n hd =? 0) eqn:Hn.
  - apply Z.eqb_eq in Hn. exists fi. split; [exact Hfi |]. split; [lia | reflexivity].
  - eexists. split; [rewrite lookup_alter_eq, Hfi; reflexivity |].
    split; reflexivity.
Qed.



End Settling.

(** ** The further properties on the runs *)

Section FurtherRuns.
Import GoTime Sys Rotating StdLibs Scenario.

Lemma createFile_only_adds_witness :
  1%nat = length (w_handles fullWorld) /\
  w_handles swapWorld
  = (w_handles fullWorld ++ [mkHandle "dir/20210101-000000.log.1" 0 None false])%list /\
  is_Some (w_files swapWorld !! "dir/20210101-000000.log.1").
Proof.
  refine (proj2 (proj2 (proj2 (createFile_only_adds "dir/20210101-000000.log.1" fullWorld
                                 (inl 1%nat) swapWorld _)))).
  vm_compute. reflexivity.
Defined.

Lemma makeSymlink_releases_lock_witness :
  ((exists err, @None error = Some (Wrapped err "failed to open lockfile")) /\
   snd (makeSymlink linkFile linkWorld) = linkWorld) \/
  (w_files linkWorld !! (filename linkFile +:+ "_lock") = None /\
   w_files (snd (makeSymlink linkFile linkWorld)) !! (filename linkFile +:+ "_lock") = None).
Proof.
  apply (makeSymlink_releases_lock linkFile linkWorld None (snd (makeSymlink linkFile linkWorld))).
  - vm_compute. discriminate.
  - vm_compute. reflexivity.
Defined.


(** The link of that run points to the log file, relative to the link's
    directory. *)
Example linkRun_link :
  w_links linkWorld !! "dir/current.log" = Some "20210101-000000.log".
Proof. vm_compute. reflexivity. Qed.

Lemma rotateFile_without_attempt_witness :
  rotateFile closedFile closedWorld "dir/20210101-000005.log"
  = (None, closedFile, closedWorld).
Proof.
  apply (rotateFile_without_attempt closedFile closedWorld "dir/20210101-000005.log").
  left. vm_compute. reflexivity.
Defined.

Lemma rotateFile_exhausted_witness :
  rotateFile deniedFile deniedWorld "dir/20210101-000005.log"
  = (Some (Wrapped deniedError "failed to create file dir/20210101-000005.log"),
     deniedFile, deniedWorld).
Proof.
  refine (proj1 (rotateFile_exhausted deniedFile deniedWorld "dir/20210101-000005.log"
                   deniedError deniedWorld _ _ _)).
  - vm_compute. reflexivity.
  - vm_compute. discriminate.
  - vm_compute. reflexivity.
Defined.

Lemma rotateFile_installs_witness :
  snd (fst (rotateFile fullFile fullWorld "dir/20210101-000000.log.1"))
  = fst (runSteps (swapSteps 1 "dir/20210101-000000.log.1") (fullFile, swapWorld)).
Proof.
  refine (proj1 (proj2 (proj2 (rotateFile_installs fullFile fullWorld
                                 "dir/20210101-000000.log.1" 1 swapWorld _ _ _)))).
  - vm_compute. reflexivity.
  - vm_compute. discriminate.
  - vm_compute. reflexivity.
Defined.

Lemma getWriter_interval_rotation_witness :
  baseTime (snd (fst (getWriter onceFile nextSlotWorld)))
  = truncate (clock onceFile (snd (sizeExceeded onceFile nextSlotWorld))) (maxInterval onceFile) /\
  generation (snd (fst (getWriter onceFile nextSlotWorld))) = 0 /\
  filename (snd (fst (getWriter onceFile nextSlotWorld)))
  = pattern onceFile (baseTime (snd (fst (getWriter onceFile nextSlotWorld)))) /\
  file (snd (fst (getWriter onceFile nextSlotWorld))) = Some 1%nat /\
  1%nat = length (w_handles (snd (sizeExceeded onceFile nextSlotWorld))).
Proof.
  apply (getWriter_interval_rotation onceFile nextSlotWorld 1).
  - vm_compute. reflexivity.
  - vm_compute. discriminate.
  - vm_compute. reflexivity.
  - vm_compute. reflexivity.
Defined.

(** The name after that rotation. *)
Example nextSlot_name :
  filename (snd (fst (getWriter onceFile nextSlotWorld))) = "dir/20210101-000005.log".
Proof. vm_compute. reflexivity. Qed.

Lemma getWriter_size_rotation_witness :
  baseTime (snd (fst (getWriterAt (advance (6 * Second)) fullFile dueWorld)))
  = truncate (clock fullFile (advance (6 * Second) (snd (sizeExceeded fullFile dueWorld))))
             (maxInterval fullFile).
Proof.
  refine (proj1 (getWriter_size_rotation (advance (6 * Second)) fullFile dueWorld 1 _ _ _ _ _)).
  - vm_compute. reflexivity.
  - vm_compute. discriminate.
  - vm_compute. reflexivity.
  - vm_compute. reflexivity.
  - vm_compute. reflexivity.
Defined.

(** When the clock moves on by two hours between the two readings, the
    file of the later slot is opened under its bare name and the generation
    stays. *)
Example moved_clock_name :
  filename (snd (fst (getWriterAt (advance (2 * Hour)) fullFile dueWorld)))
  = "dir/20210101-020000.log" /\
  generation (snd (fst (getWriterAt (advance (2 * Hour)) fullFile dueWorld))) = 0.
Proof. evaluate. Qed.

(** The name after that rotation. *)
Example due_name :
  filename (snd (fst (getWriter fullFile dueWorld))) = "dir/20210101-000000.log.1".
Proof. vm_compute. reflexivity. Qed.

Lemma Close_closes_all_witness :
  allClosed (snd (Close onceFile onceWorld)) = true.
Proof.
  apply (Close_closes_all onceFile onceWorld).
  vm_compute. reflexivity.
Defined.

Lemma Write_oneOpen_witness :
  oneOpen (snd (fst (Write fullFile dueWorld line))) (snd (Write fullFile dueWorld line)) = true.
Proof.
  apply (Write_oneOpen fullFile dueWorld line).
  vm_compute. reflexivity.
Defined.

Lemma stopped_timer_never_rotates_by_size_witness :
  nextCheck (fst (WriteSeq onceFile onceWorld [(advance (6 * Second), line); (id, line)]))
  = Stopped /\
  fst (fst (sizeExceeded
              (fst (WriteSeq onceFile onceWorld [(advance (6 * Second), line); (id, line)]))
              world0)) = false.
Proof.
  apply (stopped_timer_never_rotates_by_size
           [(advance (6 * Second), line); (id, line)] onceFile onceWorld world0).
  vm_compute. reflexivity.
Defined.

Lemma purgeOld_disabled_witness :
  snd (purgeOld onceFile onceWorld) = onceWorld.
Proof.
  refine (proj1 (purgeOld_disabled onceFile onceWorld _ _)).
  - vm_compute. discriminate.
  - vm_compute. discriminate.
Defined.

Lemma Close_flushes_buffer_witness :
  (exists fi', w_files (snd (Close onceFile onceWorld)) !! "dir/20210101-000000.log" = Some fi' /\
               Size fi' = 0 + 11 /\ FileMode fi' = Regular) /\
  w_handles (snd (Close onceFile onceWorld)) !! 0%nat
  = Some (mkHandle "dir/20210101-000000.log" 0 None true) /\
  cancelled (snd (fst (Close onceFile onceWorld))) = true.
Proof.
  apply (Close_flushes_buffer onceFile onceWorld 0
           (mkHandle "dir/20210101-000000.log" 11 None false)
           (mkFileInfo 0 newYear2021 Regular)).
  - vm_compute. reflexivity.
  - vm_compute. reflexivity.
  - vm_compute. reflexivity.
  - vm_compute. reflexivity.
  - vm_compute. reflexivity.
Defined.



End FurtherRuns.
